(** * midio: the recording-to-WAV pipeline of the browser client

    A shallow embedding of [static/script.js] and of its revised copy (the
    one whose handlers consume binary responses): [mergeBuffers],
    [createWavBlob], [writeString], the audio callback and the handlers of
    the record, embed and extract buttons and of the inputs, with the
    properties of the WAV container and of the handlers proved over it.

    JavaScript numbers that carry measured data (the samples, the sample
    rate) are IEEE 754 binary64 values, modelled by the Standard Library's
    [spec_float] with [prec = 53] and [emax = 1024]; array lengths, offsets
    and the integer constants of the header are modelled in [Z] and [nat],
    where JavaScript computes exactly as well. *)

From Stdlib Require Import ZArith Lia Bool String Ascii QArith Qround Qabs SpecFloat Lqa.
From stdpp Require Import base option list strings pretty.

Close Scope Q_scope.
Local Open Scope Z_scope.

(** ** JavaScript numbers *)

Module JS.

Abbreviation number := spec_float.

Definition prec : Z := 53.
Definition emax : Z := 1024.

(** An integer literal such as [0x7FFF], [1] or [-1]. *)
Definition lit (z : Z) : number := binary_normalize prec emax z 0 false.

Definition NaN : number := S754_nan.
Definition Infinity : number := S754_infinity false.
Definition negInfinity : number := S754_infinity true.

(** [x * y] and [x < y] on numbers. *)
Definition mul (x y : number) : number := SFmul prec emax x y.
Definition lt (x y : number) : bool := SFltb x y.

(** [Math.min(x, y)] and [Math.max(x, y)]: NaN if either argument is NaN,
    and -0 is smaller than +0. *)
Definition Math_min (x y : number) : number :=
  match SFcompare x y with
  | None => NaN
  | Some Lt => x
  | Some Gt => y
  | Some Eq =>
      match x, y with
      | S754_zero sx, S754_zero sy => S754_zero (sx || sy)
      | _, _ => x
      end
  end.

Definition Math_max (x y : number) : number :=
  match SFcompare x y with
  | None => NaN
  | Some Lt => y
  | Some Gt => x
  | Some Eq =>
      match x, y with
      | S754_zero sx, S754_zero sy => S754_zero (sx && sy)
      | _, _ => x
      end
  end.

(** The integer conversion shared by ToInt16, ToUint16, ToUint32 and
    ToUint8: NaN, the infinities and the zeros give 0, a finite number is
    truncated toward zero. *)
Definition truncate (x : number) : Z :=
  match x with
  | S754_finite s m e => cond_Zopp s (Z.shiftl (Z.pos m) e)
  | _ => 0
  end.

(** The modular step of ToUintN and ToIntN. *)
Definition wrapU (bits : Z) (z : Z) : Z := z mod 2 ^ bits.

Definition wrapS (bits : Z) (z : Z) : Z :=
  let u := z mod 2 ^ bits in
  if 2 ^ (bits - 1) <=? u then u - 2 ^ bits else u.

Definition ToInt16 (x : number) : Z := wrapS 16 (truncate x).
Definition ToUint32 (x : number) : Z := wrapU 32 (truncate x).

(** An element of a [Float32Array] is a binary32 value; reading it yields
    the number with the same value. *)
Abbreviation float32 := spec_float.

Definition is_float32 (x : float32) : Prop := valid_binary 24 128 x = true.

Definition of_float32 (x : float32) : number :=
  match x with
  | S754_finite s m e => binary_round prec emax s m e
  | _ => x
  end.

(** The rational value of a finite number or binary32 element. *)
Definition Qvalue (x : spec_float) : Q :=
  match x with
  | S754_finite s m e =>
      match e with
      | Z.neg p => Qmake (cond_Zopp s (Z.pos m)) (2 ^ p)
      | _ => inject_Z (cond_Zopp s (Z.pos m) * 2 ^ e)
      end
  | _ => 0%Q
  end.

End JS.

(** ** Typed arrays and the DataView *)

Module Buf.

(** [dst.set(src, offset)]: the elements of [src] overwrite those of [dst]
    from [offset] on; a source that does not fit raises a RangeError. *)
Definition store {A} (offset : nat) (src dst : list A) : option (list A) :=
  if decide (offset + length src <= length dst)%nat
  then Some (list_inserts offset src dst)
  else None.

(** [new Float32Array(n)] and [new ArrayBuffer(n)] are zero-filled. *)
Definition Float32Array (n : nat) : list JS.float32 := replicate n (S754_zero false).
Definition ArrayBuffer (n : nat) : list Z := replicate n 0.

(** The [n] bytes of an integer, least significant first (negative integers
    in two's complement). *)
Fixpoint le_bytes (n : nat) (z : Z) : list Z :=
  match n with
  | O => []
  | S n' => z mod 256 :: le_bytes n' (z / 256)
  end.

Fixpoint le_value (bs : list Z) : Z :=
  match bs with
  | [] => 0
  | b :: bs' => b + 256 * le_value bs'
  end.

(** A step of a program over the view: the next view, or a RangeError. *)
Definition op := list Z -> option (list Z).

Definition seq (f g : op) : op := fun view => f view ≫= g.

Definition setUint8 (offset : nat) (v : JS.number) : op :=
  store offset (le_bytes 1 (JS.wrapU 8 (JS.truncate v))).
Definition setUint16 (offset : nat) (v : JS.number) : op :=
  store offset (le_bytes 2 (JS.wrapU 16 (JS.truncate v))).
Definition setUint32 (offset : nat) (v : JS.number) : op :=
  store offset (le_bytes 4 (JS.ToUint32 v)).
Definition setInt16 (offset : nat) (v : JS.number) : op :=
  store offset (le_bytes 2 (JS.ToInt16 v)).

(** The readers, little-endian; they state what a decoder sees. *)
Definition getUint16 (view : list Z) (offset : nat) : Z :=
  le_value (take 2 (drop offset view)).
Definition getUint32 (view : list Z) (offset : nat) : Z :=
  le_value (take 4 (drop offset view)).
Definition getInt16 (view : list Z) (offset : nat) : Z :=
  JS.wrapS 16 (le_value (take 2 (drop offset view))).

(** The character codes of an ASCII string. *)
Definition charCodes (s : string) : list Z :=
  map (fun c => Z.of_nat (nat_of_ascii c)) (list_ascii_of_string s).

Definition getString (view : list Z) (offset len : nat) : list Z :=
  take len (drop offset view).

End Buf.

Infix ">=>" := Buf.seq (at level 61, left associativity).

(** ** The WAV helpers (shared by both copies of the script) *)

Record Blob := { blob_bytes : list Z; blob_type : string }.

(** A natural number (a length, an offset, a header constant) as a number. *)
Definition num (n : nat) : JS.number := JS.lit (Z.of_nat n).

Fixpoint mergeLoop (chunks : list (list JS.float32)) (offset : nat)
    (result : list JS.float32) : option (list JS.float32) :=
  match chunks with
  | [] => Some result
  | chunk :: rest =>
      result' ← Buf.store offset chunk result;
      mergeLoop rest (offset + length chunk)%nat result'
  end.

Definition mergeBuffers (chunks : list (list JS.float32)) : option (list JS.float32) :=
  let totalLength := foldl (fun acc chunk => (acc + length chunk)%nat) 0%nat chunks in
  let result := Buf.Float32Array totalLength in
  mergeLoop chunks 0 result.

(** A JavaScript string is the list of its UTF-16 code units, each in
    0..65535: [string.charCodeAt(i)] is the [i]-th of them. A literal of
    ASCII characters is written with [Buf.charCodes]. *)
Definition is_code_unit (c : Z) : Prop := 0 <= c < 65536.

(** The string of the euro sign (code unit 8364) and the letter A. *)
Definition euro_A : list Z := [8364; 65].

Fixpoint writeStringFrom (i : nat) (offset : nat) (string : list Z) : Buf.op :=
  match string with
  | [] => Some
  | c :: rest =>
      Buf.setUint8 (offset + i) (JS.lit c) >=> writeStringFrom (S i) offset rest
  end.

Definition writeString (offset : nat) (string : list Z) : Buf.op :=
  writeStringFrom 0 offset string.

(** One pass of the sample loop: clamp, scale, store. *)
Definition quantize (x : JS.float32) : JS.number :=
  let sample := JS.Math_max (JS.lit (-1)) (JS.Math_min (JS.lit 1) (JS.of_float32 x)) in
  if JS.lt sample (JS.lit 0)
  then JS.mul sample (JS.lit 0x8000)
  else JS.mul sample (JS.lit 0x7FFF).

Fixpoint writeSamples (audioBuffer : list JS.float32) (offset : nat) : Buf.op :=
  match audioBuffer with
  | [] => Some
  | x :: rest => Buf.setInt16 offset (quantize x) >=> writeSamples rest (offset + 2)
  end.

(** [createWavBlob] of static/script.js. *)
Definition createWavBlob (audioBuffer : list JS.float32) (sampleRate : JS.number)
    : option Blob :=
  let numberOfChannels := 1%nat in
  let bitDepth := 16%nat in
  let bytesPerSample := (bitDepth / 8)%nat in
  let blockAlign := (numberOfChannels * bytesPerSample)%nat in
  let dataLength := (length audioBuffer * blockAlign)%nat in
  let buffer := Buf.ArrayBuffer (44 + dataLength) in
  view ← (writeString 0 (Buf.charCodes "RIFF") >=>
           Buf.setUint32 4 (num (36 + dataLength)) >=>
           writeString 8 (Buf.charCodes "WAVE") >=>
           writeString 12 (Buf.charCodes "fmt ") >=>
           Buf.setUint32 16 (num 16) >=>
           Buf.setUint16 20 (num 1) >=>
           Buf.setUint16 22 (num numberOfChannels) >=>
           Buf.setUint32 24 sampleRate >=>
           Buf.setUint32 28 (JS.mul sampleRate (num blockAlign)) >=>
           Buf.setUint16 32 (num blockAlign) >=>
           Buf.setUint16 34 (num bitDepth) >=>
           writeString 36 (Buf.charCodes "data") >=>
           Buf.setUint32 40 (num dataLength) >=>
           writeSamples audioBuffer 44) buffer;
  Some {| blob_bytes := view; blob_type := "audio/wav" |}.

(** [createWavBlob] of the revised script. *)
Definition createWavBlob' (buf : list JS.float32) (sr : JS.number) : option Blob :=
  let header := Buf.ArrayBuffer (44 + length buf * 2) in
  view ← (writeString 0 (Buf.charCodes "RIFF") >=>
           Buf.setUint32 4 (num (36 + length buf * 2)) >=>
           writeString 8 (Buf.charCodes "WAVE") >=>
           writeString 12 (Buf.charCodes "fmt ") >=>
           Buf.setUint32 16 (num 16) >=>
           Buf.setUint16 20 (num 1) >=>
           Buf.setUint16 22 (num 1) >=>
           Buf.setUint32 24 sr >=>
           Buf.setUint32 28 (JS.mul sr (num 2)) >=>
           Buf.setUint16 32 (num 2) >=>
           Buf.setUint16 34 (num 16) >=>
           writeString 36 (Buf.charCodes "data") >=>
           Buf.setUint32 40 (num (length buf * 2)) >=>
           writeSamples buf 44) header;
  Some {| blob_bytes := view; blob_type := "audio/wav" |}.

(** ** The page: globals, form controls, and what a handler does to them *)

Record File := { file_name : string; file_type : string; file_bytes : list Z }.

Inductive Part := FilePart (f : File) | TextPart (s : string).

Inductive BodyReader := AsText | AsJson | AsBlob.

(** The effects of a handler that leave the page's script. *)
Inductive Event :=
  | Disconnect (node : string)
  | TrackStop (track : nat)
  | CreateObjectURL (b : Blob)
  | Alert (message : string)
  | Fetch (endpoint : string) (form : list (string * Part))
  | ReadBody (how : BodyReader)
  | Download (name : string) (b : Blob)
  | Dom (element property value : string).

(** [window.currentRecording]: the tracks of the stream, the chunk list the
    audio callback appends to, and the rate of the audio context. *)
Record Recording := {
  stream : list nat;
  audioChunks : list (list JS.float32);
  sampleRate : JS.number
}.

Record World := {
  currentRecording : option Recording;
  recorder : bool;                  (* [recorder] and [mediaStreamSource] hold nodes *)
  recordedBlob : option Blob;
  uploadAudioHidden : bool;         (* uploadAudioDiv has class "hidden" *)
  audioFiles : list File;           (* audioFileInput.files *)
  imageFiles : list File;           (* imageFileInput.files *)
  extractImageFiles : list File;    (* extractImageFileInput.files *)
  nFftValue : string;               (* nFftSlider.value *)
  hopLengthValue : string;          (* hopLengthSlider.value *)
  log : list Event                  (* effects so far, oldest first *)
}.

(** A parsed JSON body; [JNum] carries the number and the text JavaScript
    prints for it ([String(x)]). *)
#[local] Set Warnings "-register-all".
Inductive jvalue :=
  | JNull
  | JBool (b : bool)
  | JNum (x : JS.number) (shown : string)
  | JStr (s : string)
  | JArr (items : list jvalue)
  | JObj (fields : list (string * jvalue)).

(** What the page is given by the service: [response.ok], and what each of
    [response.text()], [response.json()] and [response.blob()] resolves to
    ([json] rejects with the parser's message on a body that is not JSON). *)
Record Response := {
  ok : bool;
  text : string;
  json : string + jvalue;
  blob : Blob
}.

Inductive FetchOutcome := Rejected (message : string) | Resolved (r : Response).

(** The service during one submission, and the parts of the engine that are
    not spelled out here: the texts of its TypeErrors, and what the
    evaluation of the result templates of static/script.js (lines 320-346
    and 387-405) gives on a parsed body at the time of the submission: the
    markup, or the message of the TypeError that a missing or ill-typed
    field raises ([result.duration.toFixed(2)] on a body without
    [duration], say). *)
Record Env := {
  fetch : string -> list (string * Part) -> FetchOutcome;
  nullPropertyMessage : string;    (* the engine's TypeError text *)
  primitiveMessage : string;       (* its text when an object has no string form *)
  embedTemplate : jvalue -> string + string;
  extractTemplate : jvalue -> string + string
}.

(** *** Completions and the handler monad *)

Inductive completion (A : Type) :=
  | Normal (a : A)
  | Return
  | Throw (message : string).
Arguments Normal {A} a.
Arguments Return {A}.
Arguments Throw {A} message.

Definition handler (A : Type) := World -> completion A * World.

#[global] Instance handler_ret : MRet handler := fun A a w => (Normal a, w).

#[global] Instance handler_bind : MBind handler := fun A B f m w =>
  match m w with
  | (Normal a, w') => f a w'
  | (Return, w') => (Return, w')
  | (Throw msg, w') => (Throw msg, w')
  end.

Definition get : handler World := fun w => (Normal w, w).
Definition return_ {A} : handler A := fun w => (Return, w).
Definition throw {A} (message : string) : handler A := fun w => (Throw message, w).

Definition append_log (w : World) (es : list Event) : World :=
  {| currentRecording := currentRecording w; recorder := recorder w;
     recordedBlob := recordedBlob w; uploadAudioHidden := uploadAudioHidden w;
     audioFiles := audioFiles w; imageFiles := imageFiles w;
     extractImageFiles := extractImageFiles w; nFftValue := nFftValue w;
     hopLengthValue := hopLengthValue w; log := log w ++ es |}.

Definition emit (e : Event) : handler unit := fun w => (Normal tt, append_log w [e]).

Definition alert (message : string) : handler unit := emit (Alert message).

(** [try { body } catch (e) { handle e.message } finally { final }]. *)
Definition try_catch_finally (body : handler unit) (handle : string -> handler unit)
    (final : handler unit) : handler unit := fun w =>
  let '(c, w1) :=
    match body w with
    | (Throw msg, w') => handle msg w'
    | r => r
    end in
  match final w1 with
  | (Normal _, w2) => (c, w2)
  | r => r
  end.

(** An uncaught exception of a library call aborts the handler. *)
Definition lift {A} (o : option A) : handler A :=
  match o with
  | Some a => mret a
  | None => throw "RangeError"
  end.

Fixpoint for_each {A} (l : list A) (f : A -> handler unit) : handler unit :=
  match l with
  | [] => mret tt
  | x :: rest => f x ;; for_each rest f
  end.

Definition run (h : handler unit) (w : World) : World := snd (h w).

(** *** Setters of the globals *)

Definition set_recordedBlob (b : option Blob) : handler unit := fun w =>
  (Normal tt,
   {| currentRecording := currentRecording w; recorder := recorder w;
      recordedBlob := b; uploadAudioHidden := uploadAudioHidden w;
      audioFiles := audioFiles w; imageFiles := imageFiles w;
      extractImageFiles := extractImageFiles w; nFftValue := nFftValue w;
      hopLengthValue := hopLengthValue w; log := log w |}).

Definition set_currentRecording (r : option Recording) : handler unit := fun w =>
  (Normal tt,
   {| currentRecording := r; recorder := recorder w;
      recordedBlob := recordedBlob w; uploadAudioHidden := uploadAudioHidden w;
      audioFiles := audioFiles w; imageFiles := imageFiles w;
      extractImageFiles := extractImageFiles w; nFftValue := nFftValue w;
      hopLengthValue := hopLengthValue w; log := log w |}).

(** [audioFileInput.value = ''] empties the selection. *)
Definition clear_audioFiles : handler unit := fun w =>
  (Normal tt,
   {| currentRecording := currentRecording w; recorder := recorder w;
      recordedBlob := recordedBlob w; uploadAudioHidden := uploadAudioHidden w;
      audioFiles := []; imageFiles := imageFiles w;
      extractImageFiles := extractImageFiles w; nFftValue := nFftValue w;
      hopLengthValue := hopLengthValue w; log := log w |}).

(** [await fetch(url, {method: 'POST', body: formData})]. *)
Definition await_fetch (env : Env) (endpoint : string) (form : list (string * Part))
    : handler Response :=
  emit (Fetch endpoint form) ;;
  match fetch env endpoint form with
  | Rejected msg => throw msg
  | Resolved r => mret r
  end.

(** ** static/script.js: the handlers *)

Module Static.

(** The click handler of [stopRecordBtn]. *)
Definition stop_click : handler unit :=
  w ← get;
  match currentRecording w with
  | None => return_
  | Some rec =>
      (if recorder w
       then emit (Disconnect "recorder") ;; emit (Disconnect "mediaStreamSource")
       else mret tt) ;;
      for_each (stream rec) (fun track => emit (TrackStop track)) ;;
      audioBuffer ← lift (mergeBuffers (audioChunks rec));
      wavBlob ← lift (createWavBlob audioBuffer (sampleRate rec));
      set_recordedBlob (Some wavBlob) ;;
      emit (CreateObjectURL wavBlob) ;;
      emit (Dom "recordedAudio" "src" "audioUrl") ;;
      emit (Dom "recordedAudio" "classList.remove" "hidden") ;;
      emit (Dom "recordingStatus" "textContent" "✅ Recording saved!") ;;
      emit (Dom "recordingStatus" "style.background" "#95E1D3") ;;
      emit (Dom "startRecordBtn" "disabled" "false") ;;
      emit (Dom "stopRecordBtn" "disabled" "true") ;;
      clear_audioFiles ;;
      emit (Dom "audioFileName" "classList.remove" "show") ;;
      set_currentRecording None
  end.

(** The own property [name] of a parsed object. *)
Fixpoint field (name : string) (fields : list (string * jvalue)) : option jvalue :=
  match fields with
  | [] => None
  | (k, v) :: rest =>
      (* a later duplicate key wins in JSON.parse *)
      match field name rest with
      | Some v' => Some v'
      | None => if String.eqb k name then Some v else None
      end
  end.

(** [String(v)] of a parsed JSON value; [None] is the TypeError of an object
    that has no string form: a parsed object with an own property
    [toString] (which is never a function) hides [Object.prototype.toString],
    and no [valueOf] yields a primitive. An array joins the strings of its
    elements with commas, [null] elements giving the empty string. *)
Fixpoint ToString (v : jvalue) : option string :=
  match v with
  | JNull => Some "null"
  | JBool true => Some "true"
  | JBool false => Some "false"
  | JNum _ shown => Some shown
  | JStr s => Some s
  | JArr items =>
      (fix join (l : list jvalue) : option string :=
         match l with
         | [] => Some ""
         | [x] => match x with JNull => Some "" | _ => ToString x end
         | x :: rest =>
             first ← match x with JNull => Some "" | _ => ToString x end;
             others ← join rest;
             Some (first +:+ "," +:+ others)
         end) items
  | JObj fields =>
      match field "toString" fields with
      | Some _ => None
      | None => Some "[object Object]"
      end
  end.

(** The truth value of a parsed JSON value. *)
Definition truthy (v : jvalue) : bool :=
  match v with
  | JNull => false
  | JBool b => b
  | JNum x _ => match x with S754_zero _ | S754_nan => false | _ => true end
  | JStr s => negb (String.eqb s "")
  | JArr _ | JObj _ => true
  end.

(** [new Error(result.detail || fallback)]: the message of the error; the
    constructor converts its argument to a string, which throws for an
    object without a string form. *)
Definition detail_or (env : Env) (result : jvalue) (fallback : string) : handler string :=
  match result with
  | JNull => throw (nullPropertyMessage env)
  | JObj fields =>
      match field "detail" fields with
      | Some v =>
          if truthy v
          then match ToString v with
               | Some message => mret message
               | None => throw (primitiveMessage env)
               end
          else mret fallback
      | None => mret fallback
      end
  | _ => mret fallback
  end.

(** The evaluation of a result template. *)
Definition await_template (outcome : string + string) : handler string :=
  match outcome with
  | inl message => throw message
  | inr markup => mret markup
  end.

Definition await_json (r : Response) : handler jvalue :=
  emit (ReadBody AsJson) ;;
  match json r with
  | inl msg => throw msg
  | inr v => mret v
  end.

(** The click handler of [embedBtn]. *)
Definition embed_click (env : Env) : handler unit :=
  try_catch_finally
    (w ← get;
     audioFile ←
       (if uploadAudioHidden w then
          match recordedBlob w with
          | None => alert "❌ Please record audio first!" ;; return_
          | Some b =>
              mret {| file_name := "recorded.wav"; file_type := "audio/wav";
                      file_bytes := blob_bytes b |}
          end
        else
          match audioFiles w with
          | [] => alert "❌ Please select an audio file!" ;; return_
          | f :: _ => mret f
          end);
     match imageFiles w with
     | [] => alert "❌ Please select an image file!" ;; return_
     | imageFile :: _ =>
         emit (Dom "loading" "classList.remove" "hidden") ;;
         let formData :=
           [("audio_file", FilePart audioFile);
            ("image_file", FilePart imageFile);
            ("n_fft", TextPart (nFftValue w));
            ("hop_length", TextPart (hopLengthValue w))] in
         response ← await_fetch env "/api/embed" formData;
         result ← await_json response;
         (if negb (ok response)
          then msg ← detail_or env result "Embedding failed"; throw msg
          else mret tt) ;;
         markup ← await_template (embedTemplate env result);
         emit (Dom "embedResult" "innerHTML" markup) ;;
         emit (Dom "embedResult" "classList.remove" "hidden") ;;
         emit (Dom "embedResult" "scrollIntoView" "smooth")
     end)
    (fun message => alert ("❌ Error: " +:+ message))
    (emit (Dom "loading" "classList.add" "hidden")).

(** The click handler of [extractBtn]. *)
Definition extract_click (env : Env) : handler unit :=
  try_catch_finally
    (w ← get;
     match extractImageFiles w with
     | [] => alert "❌ Please select a PNG image with hidden audio!" ;; return_
     | imageFile :: _ =>
         emit (Dom "loading" "classList.remove" "hidden") ;;
         let formData := [("image_file", FilePart imageFile)] in
         response ← await_fetch env "/api/extract" formData;
         result ← await_json response;
         (if negb (ok response)
          then msg ← detail_or env result "Extraction failed"; throw msg
          else mret tt) ;;
         markup ← await_template (extractTemplate env result);
         emit (Dom "extractResult" "innerHTML" markup) ;;
         emit (Dom "extractResult" "classList.remove" "hidden") ;;
         emit (Dom "extractResult" "scrollIntoView" "smooth")
     end)
    (fun message => alert ("❌ Error: " +:+ message))
    (emit (Dom "loading" "classList.add" "hidden")).

End Static.

(** ** The revised script: the handlers *)

Module Revised.

(** The click handler of [stopRecordBtn]. *)
Definition stop_click : handler unit :=
  w ← get;
  match currentRecording w with
  | None => return_
  | Some rec =>
      (if recorder w then emit (Disconnect "recorder") else throw "TypeError") ;;
      emit (Disconnect "mediaStreamSource") ;;
      for_each (stream rec) (fun t => emit (TrackStop t)) ;;
      merged ← lift (mergeBuffers (audioChunks rec));
      wavBlob ← lift (createWavBlob' merged (sampleRate rec));
      set_recordedBlob (Some wavBlob) ;;
      emit (CreateObjectURL wavBlob) ;;
      emit (Dom "recordedAudio" "src" "objectURL") ;;
      emit (Dom "recordedAudio" "classList.remove" "hidden") ;;
      emit (Dom "recordingStatus" "textContent" "✅ Saved!") ;;
      emit (Dom "stopRecordBtn" "disabled" "true") ;;
      emit (Dom "startRecordBtn" "disabled" "false") ;;
      clear_audioFiles ;;
      emit (Dom "audioFileName" "classList.remove" "show") ;;
      set_currentRecording None
  end.

Definition await_text (r : Response) : handler string :=
  emit (ReadBody AsText) ;; mret (text r).

Definition await_blob (r : Response) : handler Blob :=
  emit (ReadBody AsBlob) ;; mret (blob r).

(** The click handler of [embedBtn]. *)
Definition embed_click (env : Env) : handler unit :=
  try_catch_finally
    (w ← get;
     audioFile ←
       (if uploadAudioHidden w then
          match recordedBlob w with
          | None => alert "Record audio first!" ;; return_
          | Some b =>
              mret {| file_name := "recorded.wav"; file_type := "audio/wav";
                      file_bytes := blob_bytes b |}
          end
        else
          match audioFiles w with
          | [] => alert "Choose audio!" ;; return_
          | f :: _ => mret f
          end);
     match imageFiles w with
     | [] => alert "Choose image!" ;; return_
     | imageFile :: _ =>
         let form :=
           [("audio_file", FilePart audioFile);
            ("image_file", FilePart imageFile);
            ("n_fft", TextPart (nFftValue w));
            ("hop_length", TextPart (hopLengthValue w))] in
         emit (Dom "loading" "classList.remove" "hidden") ;;
         response ← await_fetch env "/api/embed" form;
         (if negb (ok response)
          then msg ← await_text response; throw msg
          else mret tt) ;;
         blob ← await_blob response;
         emit (CreateObjectURL blob) ;;
         emit (Download "embedded.png" blob) ;;
         emit (Dom "embedResult" "innerHTML" "✅ Embedded!") ;;
         emit (Dom "embedResult" "classList.remove" "hidden")
     end)
    (fun message => alert ("Error: " +:+ message))
    (emit (Dom "loading" "classList.add" "hidden")).

(** The click handler of [extractBtn]. *)
Definition extract_click (env : Env) : handler unit :=
  try_catch_finally
    (w ← get;
     match extractImageFiles w with
     | [] => alert "Choose PNG!" ;; return_
     | imageFile :: _ =>
         let form := [("image_file", FilePart imageFile)] in
         emit (Dom "loading" "classList.remove" "hidden") ;;
         response ← await_fetch env "/api/extract" form;
         (if negb (ok response)
          then msg ← await_text response; throw msg
          else mret tt) ;;
         blob ← await_blob response;
         emit (CreateObjectURL blob) ;;
         emit (Download "extracted.wav" blob) ;;
         emit (Dom "extractResult" "innerHTML" "✅ Extracted!") ;;
         emit (Dom "extractResult" "classList.remove" "hidden")
     end)
    (fun message => alert ("Error: " +:+ message))
    (emit (Dom "loading" "classList.add" "hidden")).

End Revised.

(** ** The two copies side by side *)

Inductive copy := static | revised.

Definition encoder (v : copy) : list JS.float32 -> JS.number -> option Blob :=
  match v with static => createWavBlob | revised => createWavBlob' end.

Definition stop_handler (v : copy) : handler unit :=
  match v with static => Static.stop_click | revised => Revised.stop_click end.

Inductive submission := Embed | Extract.

Definition submit_handler (v : copy) (s : submission) : Env -> handler unit :=
  match v, s with
  | static, Embed => Static.embed_click
  | static, Extract => Static.extract_click
  | revised, Embed => Revised.embed_click
  | revised, Extract => Revised.extract_click
  end.

(** A required input of the submission is absent. *)
Definition missing_input (s : submission) (w : World) : Prop :=
  match s with
  | Embed =>
      (uploadAudioHidden w = true /\ recordedBlob w = None) \/
      (uploadAudioHidden w = false /\ audioFiles w = []) \/
      imageFiles w = []
  | Extract => extractImageFiles w = []
  end.

(** ** Reference notions the statements use *)

(** The binary64 number of value [(-1)^s * a * 2^e], for a mantissa [a] of at
    most 53 bits: the mantissa is left-aligned to 53 bits. *)
Definition canon (s : bool) (a : positive) (e : Z) : JS.number :=
  let k := 53 - Z.pos (digits2_pos a) in
  S754_finite s (Z.to_pos (Z.pos a * 2 ^ k)) (e - k).

(** The clamp of the sample loop. *)
Definition clamp (y : JS.number) : JS.number :=
  JS.Math_max (JS.lit (-1)) (JS.Math_min (JS.lit 1) y).

(** The comparison of [1] with [m * 2^e], cross-multiplied. *)
Definition cmp_one (m : positive) (e : Z) : comparison :=
  match e with
  | Z.neg p => Z.compare (2 ^ Z.pos p) (Z.pos m)
  | _ => Z.compare 1 (Z.pos m * 2 ^ e)
  end.

(** Clamping to [-1, 1], truncation toward zero and the scaling of the
    sample loop, on exact rationals. *)
Definition Qlt_bool (x y : Q) : bool := negb (Qle_bool y x).

Definition Qclamp (v : Q) : Q :=
  if Qlt_bool 1 v then 1%Q else if Qlt_bool v (-1) then (-1)%Q else v.

Definition Qtrunc (v : Q) : Z :=
  if Qle_bool 0 v then Qfloor v else Qceiling v.

Definition scaled (v : Q) : Q :=
  let c := Qclamp v in
  if Qlt_bool c 0 then (c * 32768)%Q else (c * 32767)%Q.

(** [z] is an integer nearest to [q]. *)
Definition nearest (q : Q) (z : Z) : Prop := (Qabs (q - inject_Z z) <= 1 # 2)%Q.

Definition is_finite (x : spec_float) : bool :=
  match x with
  | S754_finite _ _ _ | S754_zero _ => true
  | _ => false
  end.

(** The container [createWavBlob] is expected to build: the 44 bytes of the
    header for [L] samples at rate [sr], then two bytes per sample. *)
Definition wav_header (L : nat) (sr : JS.number) : list Z :=
  Buf.charCodes "RIFF" ++ Buf.le_bytes 4 (JS.ToUint32 (num (36 + L * 2))) ++
  Buf.charCodes "WAVE" ++ Buf.charCodes "fmt " ++
  Buf.le_bytes 4 16 ++ Buf.le_bytes 2 1 ++ Buf.le_bytes 2 1 ++
  Buf.le_bytes 4 (JS.ToUint32 sr) ++
  Buf.le_bytes 4 (JS.ToUint32 (JS.mul sr (num 2))) ++
  Buf.le_bytes 2 2 ++ Buf.le_bytes 2 16 ++
  Buf.charCodes "data" ++ Buf.le_bytes 4 (JS.ToUint32 (num (L * 2))).

Definition wav_data (audioBuffer : list JS.float32) : list Z :=
  flat_map (fun x => Buf.le_bytes 2 (JS.ToInt16 (quantize x))) audioBuffer.

(** The header a decoder reads from the first 44 bytes. *)
Record WavFields := {
  riffTag : list Z;
  chunkSize : Z;
  waveTag : list Z;
  fmtTag : list Z;
  subchunk1Size : Z;
  audioFormat : Z;
  numChannels : Z;
  sampleRateField : Z;
  byteRate : Z;
  blockAlignField : Z;
  bitsPerSample : Z;
  dataTag : list Z;
  subchunk2Size : Z
}.

Definition parse_header (view : list Z) : WavFields :=
  {| riffTag := Buf.getString view 0 4;
     chunkSize := Buf.getUint32 view 4;
     waveTag := Buf.getString view 8 4;
     fmtTag := Buf.getString view 12 4;
     subchunk1Size := Buf.getUint32 view 16;
     audioFormat := Buf.getUint16 view 20;
     numChannels := Buf.getUint16 view 22;
     sampleRateField := Buf.getUint32 view 24;
     byteRate := Buf.getUint32 view 28;
     blockAlignField := Buf.getUint16 view 32;
     bitsPerSample := Buf.getUint16 view 34;
     dataTag := Buf.getString view 36 4;
     subchunk2Size := Buf.getUint32 view 40 |}.

(** The 16-bit sample a decoder reads at position [i] of the data chunk. *)
Definition sample16 (b : Blob) (i : nat) : Z := Buf.getInt16 (blob_bytes b) (44 + 2 * i).

(** Some binary32 samples: 0.25, 1, 1.5, -1 and 0. *)
Definition f32_quarter : JS.float32 := S754_finite false (2 ^ 23) (-25).
Definition f32_one : JS.float32 := S754_finite false (2 ^ 23) (-23).
Definition f32_one_and_half : JS.float32 := S754_finite false (3 * 2 ^ 22) (-23).
Definition f32_minus_one : JS.float32 := S754_finite true (2 ^ 23) (-23).
Definition f32_zero : JS.float32 := S754_zero false.

(** The blob the stop handler stores. *)
Definition recorded (r : Recording) : Blob :=
  {| blob_bytes := wav_header (length (concat (audioChunks r))) (sampleRate r)
                   ++ wav_data (concat (audioChunks r));
     blob_type := "audio/wav" |}.

Definition idle : World :=
  {| currentRecording := None; recorder := false; recordedBlob := None;
     uploadAudioHidden := false; audioFiles := []; imageFiles := [];
     extractImageFiles := []; nFftValue := "2048"; hopLengthValue := "512"; log := [] |}.

Definition recording : World :=
  {| currentRecording :=
       Some {| stream := [0%nat];
               audioChunks := [[f32_quarter; f32_one]; [f32_minus_one]];
               sampleRate := JS.lit 48000 |};
     recorder := true; recordedBlob := None;
     uploadAudioHidden := true; audioFiles := []; imageFiles := [];
     extractImageFiles := []; nFftValue := "2048"; hopLengthValue := "512"; log := [] |}.

Definition png : File :=
  {| file_name := "cover.png"; file_type := "image/png"; file_bytes := [137; 80; 78; 71] |}.
Definition wav : File :=
  {| file_name := "a.wav"; file_type := "audio/wav"; file_bytes := [82; 73; 70; 70] |}.

Definition ready : World :=
  {| currentRecording := None; recorder := false; recordedBlob := None;
     uploadAudioHidden := false; audioFiles := [wav]; imageFiles := [png];
     extractImageFiles := [png]; nFftValue := "2048"; hopLengthValue := "512"; log := [] |}.

Definition plain_error : Response :=
  {| ok := false; text := "Internal Server Error";
     json := inl "Unexpected token I in JSON at position 0";
     blob := {| blob_bytes := []; blob_type := "text/plain" |} |}.

(** The TypeError a result template raises on a body without its fields. *)
Definition no_fields : jvalue -> string + string :=
  fun _ => inl "Cannot read properties of undefined (reading 'toFixed')".

Definition failing_service : Env :=
  {| fetch := fun _ _ => Resolved plain_error;
     nullPropertyMessage := "Cannot read properties of null";
     primitiveMessage := "Cannot convert object to primitive value";
     embedTemplate := no_fields; extractTemplate := no_fields |}.


(** The request a submission sends when its inputs are present. *)
Definition request (s : submission) (w : World) : option (string * list (string * Part)) :=
  match s with
  | Embed =>
      audioFile ←
        (if uploadAudioHidden w
         then (fun b => {| file_name := "recorded.wav"; file_type := "audio/wav";
                           file_bytes := blob_bytes b |}) <$> recordedBlob w
         else head (audioFiles w));
      imageFile ← head (imageFiles w);
      Some ("/api/embed",
            [("audio_file", FilePart audioFile); ("image_file", FilePart imageFile);
             ("n_fft", TextPart (nFftValue w)); ("hop_length", TextPart (hopLengthValue w))])
  | Extract =>
      imageFile ← head (extractImageFiles w);
      Some ("/api/extract", [("image_file", FilePart imageFile)])
  end.


(** ** The encoder as a program on the heap of the script *)

(** What a function of the script could read or change: the page (its
    globals, its controls and the log of its effects) and the typed-array
    objects, each known by its reference (its index here). *)
Record Store := {
  page : World;
  float32Arrays : list (list JS.float32);
  arrayBuffers : list (list Z)
}.

Definition script (A : Type) := Store -> completion A * Store.

#[global] Instance script_ret : MRet script := fun A a s => (Normal a, s).

#[global] Instance script_bind : MBind script := fun A B f m s =>
  match m s with
  | (Normal a, s') => f a s'
  | (Return, s') => (Return, s')
  | (Throw msg, s') => (Throw msg, s')
  end.

(** The store after the allocation of a buffer that holds [bytes]. *)
Definition allocated (s : Store) (bytes : list Z) : Store :=
  {| page := page s; float32Arrays := float32Arrays s;
     arrayBuffers := arrayBuffers s ++ [bytes] |}.

Module OnHeap.

(** [array.length] and [array[i]]; an index past the end reads [undefined],
    which [Math.min] takes for NaN. *)
Definition length_of (array : nat) : script nat := fun s =>
  match float32Arrays s !! array with
  | Some samples => (Normal (length samples), s)
  | None => (Throw "TypeError", s)
  end.

Definition element (array i : nat) : script JS.float32 := fun s =>
  match float32Arrays s !! array with
  | Some samples => (Normal (default JS.NaN (samples !! i)), s)
  | None => (Throw "TypeError", s)
  end.

(** [new ArrayBuffer(n)]: a fresh zero-filled buffer. *)
Definition new_ArrayBuffer (n : nat) : script nat := fun s =>
  (Normal (length (arrayBuffers s)), allocated s (Buf.ArrayBuffer n)).

(** A setter of a [DataView] of the buffer [buffer]. *)
Definition write (buffer : nat) (f : Buf.op) : script unit := fun s =>
  match arrayBuffers s !! buffer with
  | None => (Throw "TypeError", s)
  | Some bytes =>
      match f bytes with
      | None => (Throw "RangeError", s)
      | Some bytes' =>
          (Normal tt,
           {| page := page s; float32Arrays := float32Arrays s;
              arrayBuffers := <[buffer := bytes']> (arrayBuffers s) |})
      end
  end.

(** [new Blob([buffer], {type})]: a copy of the bytes of the buffer. *)
Definition new_Blob (buffer : nat) (type : string) : script Blob := fun s =>
  match arrayBuffers s !! buffer with
  | None => (Throw "TypeError", s)
  | Some bytes => (Normal {| blob_bytes := bytes; blob_type := type |}, s)
  end.

Fixpoint writeStringFrom (view i offset : nat) (string : list Z) : script unit :=
  match string with
  | [] => mret tt
  | c :: rest =>
      write view (Buf.setUint8 (offset + i) (JS.lit c)) ;;
      writeStringFrom view (S i) offset rest
  end.

Definition writeString (view offset : nat) (string : list Z) : script unit :=
  writeStringFrom view 0 offset string.

(** The sample loop, with [count] passes left: nothing in the loop changes
    the length of the array, so [i < audioBuffer.length] holds for as many
    passes as the length read before the loop. *)
Fixpoint sampleLoop (audioBuffer view count i offset : nat) : script unit :=
  match count with
  | O => mret tt
  | S count' =>
      x ← element audioBuffer i;
      write view (Buf.setInt16 offset (quantize x)) ;;
      sampleLoop audioBuffer view count' (S i) (offset + 2)
  end.

(** [createWavBlob] of static/script.js. *)
Definition createWavBlob (audioBuffer : nat) (sampleRate : JS.number) : script Blob :=
  let numberOfChannels := 1%nat in
  let bitDepth := 16%nat in
  let bytesPerSample := (bitDepth / 8)%nat in
  let blockAlign := (numberOfChannels * bytesPerSample)%nat in
  length ← length_of audioBuffer;
  let dataLength := (length * blockAlign)%nat in
  buffer ← new_ArrayBuffer (44 + dataLength);
  let view := buffer in
  writeString view 0 (Buf.charCodes "RIFF") ;;
  write view (Buf.setUint32 4 (num (36 + dataLength))) ;;
  writeString view 8 (Buf.charCodes "WAVE") ;;
  writeString view 12 (Buf.charCodes "fmt ") ;;
  write view (Buf.setUint32 16 (num 16)) ;;
  write view (Buf.setUint16 20 (num 1)) ;;
  write view (Buf.setUint16 22 (num numberOfChannels)) ;;
  write view (Buf.setUint32 24 sampleRate) ;;
  write view (Buf.setUint32 28 (JS.mul sampleRate (num blockAlign))) ;;
  write view (Buf.setUint16 32 (num blockAlign)) ;;
  write view (Buf.setUint16 34 (num bitDepth)) ;;
  writeString view 36 (Buf.charCodes "data") ;;
  write view (Buf.setUint32 40 (num dataLength)) ;;
  sampleLoop audioBuffer view length 0 44 ;;
  new_Blob buffer "audio/wav".

(** [createWavBlob] of the revised script. *)
Definition createWavBlob' (buf : nat) (sr : JS.number) : script Blob :=
  length ← length_of buf;
  header ← new_ArrayBuffer (44 + length * 2);
  let view := header in
  writeString view 0 (Buf.charCodes "RIFF") ;;
  write view (Buf.setUint32 4 (num (36 + length * 2))) ;;
  writeString view 8 (Buf.charCodes "WAVE") ;;
  writeString view 12 (Buf.charCodes "fmt ") ;;
  write view (Buf.setUint32 16 (num 16)) ;;
  write view (Buf.setUint16 20 (num 1)) ;;
  write view (Buf.setUint16 22 (num 1)) ;;
  write view (Buf.setUint32 24 sr) ;;
  write view (Buf.setUint32 28 (JS.mul sr (num 2))) ;;
  write view (Buf.setUint16 32 (num 2)) ;;
  write view (Buf.setUint16 34 (num 16)) ;;
  writeString view 36 (Buf.charCodes "data") ;;
  write view (Buf.setUint32 40 (num (length * 2))) ;;
  sampleLoop buf view length 0 44 ;;
  new_Blob view "audio/wav".

End OnHeap.

Definition encoder_on_heap (v : copy) : nat -> JS.number -> script Blob :=
  match v with static => OnHeap.createWavBlob | revised => OnHeap.createWavBlob' end.

(** Two states of the script that hold the samples 0.25 and 1.0: a page at
    rest with nothing else on the heap, and a page that is recording, with
    another array and an earlier buffer. *)
Definition quiet : Store :=
  {| page := idle; float32Arrays := [[f32_quarter; f32_one]]; arrayBuffers := [] |}.

Definition busy : Store :=
  {| page := recording;
     float32Arrays := [[f32_minus_one]; [f32_quarter; f32_one]];
     arrayBuffers := [[82; 73; 70; 70]] |}.

(** A sample beyond the range [-1, 1] on either side, the infinities
    included. *)
Definition above_range (x : JS.float32) : Prop :=
  x = S754_infinity false \/ (is_finite x = true /\ (1 < JS.Qvalue x)%Q).

Definition below_range (x : JS.float32) : Prop :=
  x = S754_infinity true \/ (is_finite x = true /\ (JS.Qvalue x < -1)%Q).

(** ** Reading a container back, and writing it again *)

(** The binary32 number [k / 32768]: what a decoder makes of the 16-bit
    sample [k]. *)
Definition f32_of_int16 (k : Z) : JS.float32 :=
  match k with
  | Z0 => S754_zero false
  | Z.pos a =>
      let j := 24 - Z.pos (digits2_pos a) in
      S754_finite false (Z.to_pos (Z.pos a * 2 ^ j)) (-15 - j)
  | Z.neg a =>
      let j := 24 - Z.pos (digits2_pos a) in
      S754_finite true (Z.to_pos (Z.pos a * 2 ^ j)) (-15 - j)
  end.

(** The samples a decoder reads from the data chunk of a container, whose
    length it takes from the byte length of the container. *)
Definition decode_samples (b : Blob) : list Z :=
  map (sample16 b) (seq 0 ((length (blob_bytes b) - 44) / 2)).

Definition is_byte (b : Z) : Prop := 0 <= b < 256.

(** ** The rest of the page: starting a recording, the audio callback, the inputs *)

(** What the browser hands the start handler: [getUserMedia] rejects with a
    message or resolves to a stream (its tracks), and the construction of
    the audio context throws a message or yields a context (its sample
    rate). *)
Record Device := {
  getUserMedia : string + list nat;
  newAudioContext : string + JS.number
}.

Definition await_getUserMedia (dev : Device) : handler (list nat) :=
  match getUserMedia dev with
  | inl message => throw message
  | inr tracks => mret tracks
  end.

Definition new_AudioContext (dev : Device) : handler JS.number :=
  match newAudioContext dev with
  | inl message => throw message
  | inr rate => mret rate
  end.

(** [mediaStreamSource = ...; recorder = ...]. *)
Definition set_recorder (b : bool) : handler unit := fun w =>
  (Normal tt,
   {| currentRecording := currentRecording w; recorder := b;
      recordedBlob := recordedBlob w; uploadAudioHidden := uploadAudioHidden w;
      audioFiles := audioFiles w; imageFiles := imageFiles w;
      extractImageFiles := extractImageFiles w; nFftValue := nFftValue w;
      hopLengthValue := hopLengthValue w; log := log w |}).

(** [uploadAudioDiv.classList.add('hidden')] and [.remove('hidden')]. *)
Definition set_uploadAudioHidden (b : bool) : handler unit := fun w =>
  (Normal tt,
   {| currentRecording := currentRecording w; recorder := recorder w;
      recordedBlob := recordedBlob w; uploadAudioHidden := b;
      audioFiles := audioFiles w; imageFiles := imageFiles w;
      extractImageFiles := extractImageFiles w; nFftValue := nFftValue w;
      hopLengthValue := hopLengthValue w; log := log w |}).

(** What the browser does before it fires [change] or [input]: the
    control holds the user's choice. *)
Definition choose_audioFiles (files : list File) : handler unit := fun w =>
  (Normal tt,
   {| currentRecording := currentRecording w; recorder := recorder w;
      recordedBlob := recordedBlob w; uploadAudioHidden := uploadAudioHidden w;
      audioFiles := files; imageFiles := imageFiles w;
      extractImageFiles := extractImageFiles w; nFftValue := nFftValue w;
      hopLengthValue := hopLengthValue w; log := log w |}).

Definition choose_imageFiles (files : list File) : handler unit := fun w =>
  (Normal tt,
   {| currentRecording := currentRecording w; recorder := recorder w;
      recordedBlob := recordedBlob w; uploadAudioHidden := uploadAudioHidden w;
      audioFiles := audioFiles w; imageFiles := files;
      extractImageFiles := extractImageFiles w; nFftValue := nFftValue w;
      hopLengthValue := hopLengthValue w; log := log w |}).

Definition choose_extractImageFiles (files : list File) : handler unit := fun w =>
  (Normal tt,
   {| currentRecording := currentRecording w; recorder := recorder w;
      recordedBlob := recordedBlob w; uploadAudioHidden := uploadAudioHidden w;
      audioFiles := audioFiles w; imageFiles := imageFiles w;
      extractImageFiles := files; nFftValue := nFftValue w;
      hopLengthValue := hopLengthValue w; log := log w |}).

Definition slide_nFft (value : string) : handler unit := fun w =>
  (Normal tt,
   {| currentRecording := currentRecording w; recorder := recorder w;
      recordedBlob := recordedBlob w; uploadAudioHidden := uploadAudioHidden w;
      audioFiles := audioFiles w; imageFiles := imageFiles w;
      extractImageFiles := extractImageFiles w; nFftValue := value;
      hopLengthValue := hopLengthValue w; log := log w |}).

Definition slide_hopLength (value : string) : handler unit := fun w =>
  (Normal tt,
   {| currentRecording := currentRecording w; recorder := recorder w;
      recordedBlob := recordedBlob w; uploadAudioHidden := uploadAudioHidden w;
      audioFiles := audioFiles w; imageFiles := imageFiles w;
      extractImageFiles := extractImageFiles w; nFftValue := nFftValue w;
      hopLengthValue := value; log := log w |}).

(** The script processor nodes, numbered in the order of their creation:
    [nodes es] is the number of them that the effects [es] created. *)
Definition createScriptProcessor : Event :=
  Dom "audioContext" "createScriptProcessor" "4096, 1, 1".

Definition creates_node (e : Event) : bool :=
  match e with
  | Dom element property _ =>
      String.eqb element "audioContext" && String.eqb property "createScriptProcessor"
  | _ => false
  end.

Definition nodes (es : list Event) : nat := length (List.filter creates_node es).

(** [recorder.onaudioprocess] of the node [node]: the callback pushes a copy
    of the block onto the array that its own start created. The start
    handler alone assigns [window.currentRecording], with the array of the
    node it has just created, so that [window.currentRecording], when it is
    set, holds the array of the node created last. A push onto the array of
    an earlier node, or onto the array of a session that the stop handler
    has ended, reaches nothing that the page reads. *)
Definition audio_process (node : nat) (channelData : list JS.float32) : handler unit :=
  w ← get;
  match currentRecording w with
  | None => mret tt
  | Some rec =>
      if Nat.eqb (S node) (nodes (log w))
      then set_currentRecording
             (Some {| stream := stream rec;
                      audioChunks := audioChunks rec ++ [channelData];
                      sampleRate := sampleRate rec |})
      else mret tt
  end.

(** Both copies label a chosen file with the same prefix. *)
Definition file_label : string := "📁 ".

(** The [change] handler of [audioFileInput]. *)
Definition audio_change : handler unit :=
  w ← get;
  match audioFiles w with
  | [] => mret tt
  | file :: _ =>
      emit (Dom "audioFileName" "textContent" (file_label +:+ file_name file)) ;;
      emit (Dom "audioFileName" "classList.add" "show") ;;
      set_recordedBlob None
  end.

(** The [change] handlers of [imageFileInput] and [extractImageFileInput];
    the preview appears when the reader has loaded the file. *)
Definition image_change : handler unit :=
  w ← get;
  match imageFiles w with
  | [] => mret tt
  | file :: _ =>
      emit (Dom "imageFileName" "textContent" (file_label +:+ file_name file)) ;;
      emit (Dom "imageFileName" "classList.add" "show") ;;
      emit (Dom "FileReader" "readAsDataURL" (file_name file))
  end.

Definition extract_image_change : handler unit :=
  w ← get;
  match extractImageFiles w with
  | [] => mret tt
  | file :: _ =>
      emit (Dom "extractImageFileName" "textContent" (file_label +:+ file_name file)) ;;
      emit (Dom "extractImageFileName" "classList.add" "show") ;;
      emit (Dom "FileReader" "readAsDataURL" (file_name file))
  end.

(** The click handler of an input-type button whose [data-type] is [type]. *)
Definition input_type_click (type : string) : handler unit :=
  emit (Dom "inputTypeButtons" "classList.remove" "active") ;;
  emit (Dom "btn" "classList.add" "active") ;;
  if String.eqb type "upload"
  then set_uploadAudioHidden false ;; emit (Dom "recordAudioDiv" "classList.add" "hidden")
  else set_uploadAudioHidden true ;; emit (Dom "recordAudioDiv" "classList.remove" "hidden").

(** The [input] handlers of the two sliders. *)
Definition nFft_input : handler unit :=
  w ← get; emit (Dom "fftValue" "textContent" (nFftValue w)).

Definition hopLength_input : handler unit :=
  w ← get; emit (Dom "hopValue" "textContent" (hopLengthValue w)).

Module StaticPage.

(** The click handler of [startRecordBtn] in static/script.js. *)
Definition start_click (dev : Device) : handler unit :=
  try_catch_finally
    (stream ← await_getUserMedia dev;
     sampleRate ← new_AudioContext dev;
     emit createScriptProcessor ;;
     set_recorder true ;;
     let audioChunks := [] in
     emit (Dom "mediaStreamSource" "connect" "recorder") ;;
     emit (Dom "recorder" "connect" "audioContext.destination") ;;
     emit (Dom "startRecordBtn" "disabled" "true") ;;
     emit (Dom "stopRecordBtn" "disabled" "false") ;;
     emit (Dom "recordingStatus" "textContent" "🔴 Recording in progress...") ;;
     emit (Dom "recordingStatus" "classList.add" "show") ;;
     set_currentRecording
       (Some {| stream := stream; audioChunks := audioChunks; sampleRate := sampleRate |}))
    (fun message => alert ("❌ Could not access microphone: " +:+ message))
    (mret tt).

End StaticPage.

Module RevisedPage.

(** The click handler of [startRecordBtn] in the revised script. *)
Definition start_click (dev : Device) : handler unit :=
  try_catch_finally
    (stream ← await_getUserMedia dev;
     sampleRate ← new_AudioContext dev;
     emit createScriptProcessor ;;
     set_recorder true ;;
     let chunks := [] in
     emit (Dom "mediaStreamSource" "connect" "recorder") ;;
     emit (Dom "recorder" "connect" "audioContext.destination") ;;
     set_currentRecording
       (Some {| stream := stream; audioChunks := chunks; sampleRate := sampleRate |}) ;;
     emit (Dom "startRecordBtn" "disabled" "true") ;;
     emit (Dom "stopRecordBtn" "disabled" "false") ;;
     emit (Dom "recordingStatus" "textContent" "🔴 Recording...") ;;
     emit (Dom "recordingStatus" "classList.add" "show"))
    (fun message => alert ("Error accessing mic: " +:+ message))
    (mret tt).

End RevisedPage.

Definition start_handler (v : copy) : Device -> handler unit :=
  match v with static => StaticPage.start_click | revised => RevisedPage.start_click end.

(** What the user and the browser can do to the page, one at a time. *)
Inductive action :=
  | StartClick (dev : Device)
  | AudioProcess (node : nat) (channelData : list JS.float32)
  | StopClick
  | AudioChange (files : list File)
  | ImageChange (files : list File)
  | ExtractImageChange (files : list File)
  | InputTypeClick (type : string)
  | NFftInput (value : string)
  | HopLengthInput (value : string)
  | Submit (s : submission) (env : Env).

Definition perform (v : copy) (a : action) : handler unit :=
  match a with
  | StartClick dev => start_handler v dev
  | AudioProcess node channelData => audio_process node channelData
  | StopClick => stop_handler v
  | AudioChange files => choose_audioFiles files ;; audio_change
  | ImageChange files => choose_imageFiles files ;; image_change
  | ExtractImageChange files =>
      choose_extractImageFiles files ;; extract_image_change
  | InputTypeClick type => input_type_click type
  | NFftInput value => slide_nFft value ;; nFft_input
  | HopLengthInput value => slide_hopLength value ;; hopLength_input
  | Submit s env => submit_handler v s env
  end.

(** The page after a sequence of actions, each handler running to its end
    before the next action; an exception that escapes a handler ends that
    handler and leaves the page to the next action. *)
Definition perform_all (v : copy) (actions : list action) (w : World) : World :=
  foldl (fun w a => run (perform v a) w) w actions.

(** The callbacks [calls] (each a node and its block) as actions, and the
    blocks among them that the node [node] delivers. *)
Definition callbacks (calls : list (nat * list JS.float32)) : list action :=
  map (fun c => AudioProcess (fst c) (snd c)) calls.

Definition blocks_of (node : nat) (calls : list (nat * list JS.float32))
    : list (list JS.float32) :=
  omap (fun c => if Nat.eqb (fst c) node then Some (snd c) else None) calls.

(** The globals as the script's first lines leave them. *)
Definition loaded (w : World) : Prop :=
  currentRecording w = None /\ recorder w = false /\ recordedBlob w = None.

(** What the handlers keep true of the globals: a session has its nodes, a
    stored blob is the container of some recording, and a stored blob and a
    chosen audio file exclude each other. *)
Definition consistent (w : World) : Prop :=
  (currentRecording w <> None -> recorder w = true) /\
  (recordedBlob w = None \/ exists r, recordedBlob w = Some (recorded r)) /\
  (recordedBlob w = None \/ audioFiles w = []).

(** The requests among some events, in order. *)
Definition fetches (es : list Event) : list (string * list (string * Part)) :=
  omap (fun e => match e with Fetch endpoint form => Some (endpoint, form) | _ => None end) es.

Definition hide_spinner : Event := Dom "loading" "classList.add" "hidden".
Definition show_spinner : Event := Dom "loading" "classList.remove" "hidden".

(** A microphone with one track and a context at 48 kHz. *)
Definition microphone : Device :=
  {| getUserMedia := inr [0%nat]; newAudioContext := inr (JS.lit 48000) |}.

(** A page on which a first start (node 0) was granted and is still
    recording, and callbacks of that node and of the next one, interleaved. *)
Definition restarted : World :=
  {| currentRecording :=
       Some {| stream := [7%nat]; audioChunks := [[f32_quarter]]; sampleRate := JS.lit 44100 |};
     recorder := true; recordedBlob := None;
     uploadAudioHidden := true; audioFiles := []; imageFiles := [];
     extractImageFiles := []; nFftValue := "2048"; hopLengthValue := "512";
     log := [createScriptProcessor] |}.

Definition interleaved : list (nat * list JS.float32) :=
  [(1%nat, [f32_one]); (0%nat, [f32_minus_one]); (1%nat, [f32_zero])].

Definition denied : Device :=
  {| getUserMedia := inl "Permission denied"; newAudioContext := inr (JS.lit 48000) |}.

(** A service that cannot be reached, one that serves a file, and one that
    answers a validation error (whose [text], which static/script.js never
    reads, is not spelled out). *)
Definition offline : Env :=
  {| fetch := fun _ _ => Rejected "Failed to fetch";
     nullPropertyMessage := "Cannot read properties of null";
     primitiveMessage := "Cannot convert object to primitive value";
     embedTemplate := no_fields; extractTemplate := no_fields |}.

Definition served : Response :=
  {| ok := true; text := "RIFF"; json := inl "Unexpected token R in JSON at position 0";
     blob := {| blob_bytes := [82; 73; 70; 70]; blob_type := "audio/wav" |} |}.

Definition serving : Env :=
  {| fetch := fun _ _ => Resolved served;
     nullPropertyMessage := "Cannot read properties of null";
     primitiveMessage := "Cannot convert object to primitive value";
     embedTemplate := no_fields; extractTemplate := no_fields |}.

Definition unprocessable : Response :=
  {| ok := false; text := "422 Unprocessable Entity";
     json := inr (JObj [("detail", JArr [JObj [("msg", JStr "field required")]])]);
     blob := {| blob_bytes := []; blob_type := "application/json" |} |}.

Definition validating : Env :=
  {| fetch := fun _ _ => Resolved unprocessable;
     nullPropertyMessage := "Cannot read properties of null";
     primitiveMessage := "Cannot convert object to primitive value";
     embedTemplate := no_fields; extractTemplate := no_fields |}.

(** ** Binary64 arithmetic: products that need no rounding *)

Section Exact.

Lemma iter_pos_iter {A} (f : A -> A) n : forall x, SpecFloat.iter_pos f n x = Pos.iter f x n.
Proof.
  induction n as [n IH | n IH |]; intros x; simpl.
  - rewrite !IH. rewrite <- !Pos.iter_swap. reflexivity.
  - rewrite !IH. reflexivity.
  - reflexivity.
Qed.

Lemma digits2_size m : digits2_pos m = Pos.size m.
Proof. induction m; simpl; congruence. Qed.

Lemma digits_bounds m :
  2 ^ (Z.pos (digits2_pos m) - 1) <= Z.pos m < 2 ^ Z.pos (digits2_pos m).
Proof.
  rewrite digits2_size. split.
  - pose proof (Pos.size_le m) as H.
    apply Pos2Z.pos_le_pos in H. rewrite Pos2Z.inj_pow in H.
    replace (Z.pos (Pos.size m)) with (Z.succ (Z.pos (Pos.size m) - 1)) in H by lia.
    rewrite Z.pow_succ_r in H by lia. change (Z.pos m~0) with (2 * Z.pos m) in H. lia.
  - pose proof (Pos.size_gt m) as H.
    apply Pos2Z.pos_lt_pos in H. now rewrite Pos2Z.inj_pow in H.
Qed.

Lemma digits_unique m d : 2 ^ (d - 1) <= Z.pos m < 2 ^ d -> Z.pos (digits2_pos m) = d.
Proof.
  intros [Hl Hu]. pose proof (digits_bounds m) as [Hl' Hu'].
  assert (0 < d).
  { destruct d as [|d|d]; [simpl in Hu; lia | lia | rewrite Z.pow_neg_r in Hu; lia]. }
  destruct (Z_lt_le_dec (Z.pos (digits2_pos m)) d) as [Hlt|Hge].
  - assert (2 ^ Z.pos (digits2_pos m) <= 2 ^ (d - 1)) by (apply Z.pow_le_mono_r; lia). lia.
  - destruct (Z_lt_le_dec d (Z.pos (digits2_pos m))) as [Hlt|Hle]; [|lia].
    assert (2 ^ d <= 2 ^ (Z.pos (digits2_pos m) - 1)) by (apply Z.pow_le_mono_r; lia). lia.
Qed.

Lemma digits_shift m k : 0 <= k -> forall p, Z.pos p = Z.pos m * 2 ^ k ->
  Z.pos (digits2_pos p) = Z.pos (digits2_pos m) + k.
Proof.
  intros Hk p Hp. apply digits_unique. rewrite Hp.
  pose proof (digits_bounds m) as [Hl Hu].
  replace (Z.pos (digits2_pos m) + k - 1) with ((Z.pos (digits2_pos m) - 1) + k) by lia.
  rewrite !Z.pow_add_r by lia.
  assert (0 < 2 ^ k) by (apply Z.pow_pos_nonneg; lia). nia.
Qed.

Lemma digits_mul a b :
  Z.pos (digits2_pos a) + Z.pos (digits2_pos b) - 1 <= Z.pos (digits2_pos (a * b))
    <= Z.pos (digits2_pos a) + Z.pos (digits2_pos b).
Proof.
  pose proof (digits_bounds a) as [La Ua]. pose proof (digits_bounds b) as [Lb Ub].
  pose proof (digits_bounds (a * b)) as [Lab Uab].
  rewrite Pos2Z.inj_mul in Lab, Uab.
  set (da := Z.pos (digits2_pos a)) in *. set (db := Z.pos (digits2_pos b)) in *.
  set (dab := Z.pos (digits2_pos (a * b))) in *.
  assert (0 < da /\ 0 < db /\ 0 < dab) as (Ha & Hb & Hab) by (unfold da, db, dab; lia).
  split.
  - assert (H : 2 ^ (da - 1 + (db - 1)) < 2 ^ dab).
    { rewrite Z.pow_add_r by lia.
      assert (0 < 2 ^ (da - 1)) by (apply Z.pow_pos_nonneg; lia).
      assert (0 < 2 ^ (db - 1)) by (apply Z.pow_pos_nonneg; lia). nia. }
    apply Z.pow_lt_mono_r_iff in H; lia.
  - assert (H : 2 ^ (dab - 1) < 2 ^ (da + db)).
    { rewrite Z.pow_add_r by lia. nia. }
    apply Z.pow_lt_mono_r_iff in H; lia.
Qed.

Lemma iter_xO m n : Z.pos (Pos.iter xO m n) = Z.pos m * 2 ^ Z.pos n.
Proof.
  induction n using Pos.peano_ind.
  - simpl. lia.
  - rewrite Pos.iter_succ, Pos2Z.inj_succ, Z.pow_succ_r by lia.
    change (Z.pos (Pos.iter xO m n)~0) with (2 * Z.pos (Pos.iter xO m n)). lia.
Qed.

(** Shifting out zero bits loses nothing. *)
Lemma shr_iter_exact n : forall p q, Z.pos q = Z.pos p * 2 ^ Z.pos n ->
  Pos.iter shr_1 (Build_shr_record (Z.pos q) false false) n
  = Build_shr_record (Z.pos p) false false.
Proof.
  induction n using Pos.peano_ind; intros p q Hq.
  - simpl. destruct q; try lia. simpl. f_equal. lia.
  - rewrite Pos.iter_succ_r.
    rewrite Pos2Z.inj_succ, Z.pow_succ_r in Hq by lia.
    destruct q as [q|q|]; try lia.
    change (shr_1 (Build_shr_record (Z.pos q~0) false false))
      with (Build_shr_record (Z.pos q) false false).
    apply IHn. lia.
Qed.

Lemma shr_fexp_exact M P e k :
  0 <= k -> Z.pos M = Z.pos P * 2 ^ k -> Z.pos (digits2_pos P) = 53 ->
  -1074 <= e + k ->
  shr_fexp 53 1024 (Z.pos M) e loc_Exact = (Build_shr_record (Z.pos P) false false, e + k).
Proof.
  intros Hk HM HP He.
  unfold shr_fexp, fexp, emin. simpl Zdigits2.
  rewrite (digits_shift P k Hk M HM), HP.
  replace (Z.max (53 + k + e - 53) (3 - 1024 - 53) - e) with k by lia.
  unfold shr, shr_record_of_loc.
  destruct k as [|k|k]; try lia.
  - f_equal; [|lia]. f_equal. lia.
  - f_equal. rewrite iter_pos_iter. apply shr_iter_exact. exact HM.
Qed.

Lemma binary_round_aux_exact s M P e k :
  0 <= k -> Z.pos M = Z.pos P * 2 ^ k -> Z.pos (digits2_pos P) = 53 ->
  -1074 <= e + k <= 971 ->
  binary_round_aux 53 1024 s (Z.pos M) e loc_Exact = S754_finite s P (e + k).
Proof.
  intros Hk HM HP He. unfold binary_round_aux.
  rewrite (shr_fexp_exact M P e k) by (auto; lia).
  cbn [shr_m loc_of_shr_record round_nearest_even].
  rewrite (shr_fexp_exact P P (e + k) 0) by (auto; lia).
  cbn [shr_m]. rewrite Z.add_0_r.
  destruct (Z.leb_spec (e + k) (1024 - 53)); [reflexivity | lia].
Qed.

Lemma canon_mantissa a : Z.pos (digits2_pos a) <= 53 ->
  Z.pos (Z.to_pos (Z.pos a * 2 ^ (53 - Z.pos (digits2_pos a))))
  = Z.pos a * 2 ^ (53 - Z.pos (digits2_pos a)).
Proof.
  intros H. rewrite Z2Pos.id; [reflexivity|].
  assert (0 < 2 ^ (53 - Z.pos (digits2_pos a))) by (apply Z.pow_pos_nonneg; lia). lia.
Qed.

Lemma canon_digits a : Z.pos (digits2_pos a) <= 53 ->
  Z.pos (digits2_pos (Z.to_pos (Z.pos a * 2 ^ (53 - Z.pos (digits2_pos a))))) = 53.
Proof.
  intros H. rewrite (digits_shift a (53 - Z.pos (digits2_pos a))); [lia | lia |].
  now apply canon_mantissa.
Qed.

(** Widening a short mantissa to binary64 is exact. *)
Lemma binary_round_canon s a e :
  Z.pos (digits2_pos a) <= 53 ->
  -1074 <= e + Z.pos (digits2_pos a) - 53 <= 971 ->
  binary_round 53 1024 s a e = canon s a e.
Proof.
  intros Hd He. unfold binary_round, canon, shl_align, fexp, emin.
  replace (Z.max (Z.pos (digits2_pos a) + e - 53) (3 - 1024 - 53) - e)
    with (Z.pos (digits2_pos a) - 53) by lia.
  replace (Z.max (Z.pos (digits2_pos a) + e - 53) (3 - 1024 - 53))
    with (e - (53 - Z.pos (digits2_pos a))) by lia.
  pose proof (canon_mantissa a Hd) as Hm. pose proof (canon_digits a Hd) as Hdig.
  destruct (Z.pos (digits2_pos a) - 53) as [|d|d] eqn:Hk; try lia.
  - replace (53 - Z.pos (digits2_pos a)) with 0 in * by lia.
    rewrite (binary_round_aux_exact s a a e 0) by lia.
    f_equal; lia.
  - assert (Hk' : 53 - Z.pos (digits2_pos a) = Z.pos d) by lia.
    rewrite Hk' in *.
    assert (Hi : Pos.iter xO a d = Z.to_pos (Z.pos a * 2 ^ Z.pos d)).
    { apply Pos2Z.inj. rewrite Hm. apply iter_xO. }
    rewrite Hi.
    rewrite (binary_round_aux_exact s _ (Z.to_pos (Z.pos a * 2 ^ Z.pos d)) _ 0) by lia.
    f_equal. lia.
Qed.

(** A product whose mantissa fits in 53 bits is computed exactly. *)
Lemma mul_canon s1 a1 e1 s2 a2 e2 :
  Z.pos (digits2_pos a1) <= 53 -> Z.pos (digits2_pos a2) <= 53 ->
  Z.pos (digits2_pos (a1 * a2)) <= 53 ->
  -1074 <= e1 + e2 + Z.pos (digits2_pos (a1 * a2)) - 53 <= 971 ->
  JS.mul (canon s1 a1 e1) (canon s2 a2 e2) = canon (xorb s1 s2) (a1 * a2) (e1 + e2).
Proof.
  intros H1 H2 H12 He. unfold JS.mul, JS.prec, JS.emax. unfold canon at 1 2. cbn [SFmul].
  pose proof (canon_mantissa a1 H1) as Hm1. pose proof (canon_mantissa a2 H2) as Hm2.
  pose proof (canon_mantissa (a1 * a2) H12) as Hm. pose proof (canon_digits _ H12) as Hdig.
  pose proof (digits_mul a1 a2) as [Hlo Hhi].
  set (k1 := 53 - Z.pos (digits2_pos a1)) in *. set (k2 := 53 - Z.pos (digits2_pos a2)) in *.
  set (k := 53 - Z.pos (digits2_pos (a1 * a2))) in *.
  assert (Hk : 0 <= k1 + k2 - k) by (unfold k1, k2, k; lia).
  rewrite (binary_round_aux_exact _ _ (Z.to_pos (Z.pos (a1 * a2) * 2 ^ k)) _ (k1 + k2 - k)).
  - unfold canon. fold k. f_equal. lia.
  - exact Hk.
  - rewrite Pos2Z.inj_mul, Hm1, Hm2, Hm, Pos2Z.inj_mul.
    replace (Z.pos a1 * Z.pos a2 * 2 ^ k * 2 ^ (k1 + k2 - k))
      with (Z.pos a1 * Z.pos a2 * (2 ^ k * 2 ^ (k1 + k2 - k))) by ring.
    rewrite <- Z.pow_add_r by (unfold k; lia).
    replace (k + (k1 + k2 - k)) with (k1 + k2) by lia.
    rewrite Z.pow_add_r by (unfold k1, k2; lia). ring.
  - exact Hdig.
  - unfold k1, k2, k in *. lia.
Qed.

Lemma truncate_canon s a e :
  Z.pos (digits2_pos a) <= 53 ->
  JS.truncate (canon s a e) = cond_Zopp s (Z.shiftl (Z.pos a) e).
Proof.
  intros Hd. unfold canon, JS.truncate. rewrite (canon_mantissa a Hd). f_equal.
  set (k := 53 - Z.pos (digits2_pos a)). assert (0 <= k) by (unfold k; lia).
  rewrite <- Z.shiftl_mul_pow2 by lia.
  rewrite Z.shiftl_shiftl by lia. f_equal. lia.
Qed.

Lemma digits_le a n : 0 <= n -> Z.pos a < 2 ^ n -> Z.pos (digits2_pos a) <= n.
Proof.
  intros Hn Ha. pose proof (digits_bounds a) as [Hl _].
  destruct (Z_lt_le_dec n (Z.pos (digits2_pos a))) as [Hlt|]; [|lia].
  assert (2 ^ n <= 2 ^ (Z.pos (digits2_pos a) - 1)) by (apply Z.pow_le_mono_r; lia). lia.
Qed.

Lemma lit_pos a : Z.pos a < 2 ^ 53 -> JS.lit (Z.pos a) = canon false a 0.
Proof.
  intros Ha. unfold JS.lit, binary_normalize.
  apply binary_round_canon; pose proof (digits_le a 53 ltac:(lia) Ha); lia.
Qed.

Lemma lit_neg a : Z.pos a < 2 ^ 53 -> JS.lit (Z.neg a) = canon true a 0.
Proof.
  intros Ha. unfold JS.lit, binary_normalize.
  apply binary_round_canon; pose proof (digits_le a 53 ltac:(lia) Ha); lia.
Qed.

Lemma truncate_lit z : Z.abs z < 2 ^ 53 -> JS.truncate (JS.lit z) = z.
Proof.
  intros Hz. destruct z as [|a|a].
  - reflexivity.
  - rewrite lit_pos by lia. rewrite truncate_canon by (apply digits_le; lia).
    simpl. reflexivity.
  - rewrite lit_neg by lia. rewrite truncate_canon by (apply digits_le; lia).
    simpl. reflexivity.
Qed.

Lemma truncate_mul_two z : 0 <= z < 2 ^ 52 -> JS.truncate (JS.mul (JS.lit z) (JS.lit 2)) = 2 * z.
Proof.
  intros Hz. destruct z as [|a|a]; try lia.
  - reflexivity.
  - rewrite lit_pos by lia. rewrite (lit_pos 2) by lia.
    assert (Ha : Z.pos (digits2_pos a) <= 52) by (apply digits_le; lia).
    pose proof (digits_mul a 2) as [_ Hd]. change (Z.pos (digits2_pos 2)) with 2 in Hd.
    assert (Hd' : Z.pos (digits2_pos (a * 2)) <= 53).
    { apply digits_le; [lia|]. rewrite Pos2Z.inj_mul. change (2 ^ 53) with (2 ^ 52 * 2). lia. }
    rewrite mul_canon; try lia.
    + rewrite truncate_canon by lia. cbn [cond_Zopp xorb]. rewrite Z.shiftl_0_r. lia.
    + simpl. lia.
Qed.

Lemma float32_is_canon s m e : JS.is_float32 (S754_finite s m e) ->
  Z.pos (digits2_pos m) <= 24 /\ -149 <= e <= 104 /\
  JS.of_float32 (S754_finite s m e) = canon s m e.
Proof.
  unfold JS.is_float32. cbn [valid_binary]. unfold bounded, canonical_mantissa, fexp, emin.
  intros H. apply andb_true_iff in H as [H1 H2].
  apply Z.eqb_eq in H1. apply Z.leb_le in H2.
  assert (Z.pos (digits2_pos m) <= 24 /\ -149 <= e <= 104) as [Hd He] by lia.
  repeat split; try lia.
  apply binary_round_canon; pose proof (Pos2Z.is_pos (digits2_pos m)); lia.
Qed.

Lemma compare_mantissa_one m e :
  Z.pos (digits2_pos m) <= 53 ->
  match Z.compare (-52) (e - (53 - Z.pos (digits2_pos m))) with
  | Lt => Lt
  | Gt => Gt
  | Eq => Pos.compare_cont Eq (2 ^ 52) (Z.to_pos (Z.pos m * 2 ^ (53 - Z.pos (digits2_pos m))))
  end = cmp_one m e.
Proof.
  intros Hd. pose proof (digits_bounds m) as [Hl Hu].
  pose proof (canon_mantissa m Hd) as HM.
  set (d := Z.pos (digits2_pos m)) in *.
  assert (0 < d) by (unfold d; lia).
  destruct (Z.compare_spec (-52) (e - (53 - d))) as [HE|HE|HE].
  - (* e + d = 1 *)
    change (Pos.compare_cont Eq ?a ?b) with (Pos.compare a b).
    rewrite Pos2Z.inj_compare, HM.
    destruct e as [|p|p]; unfold cmp_one.
    + assert (d = 1) by lia. replace (53 - d) with 52 by lia.
      assert (Z.pos m = 1) by (replace d with 1 in *; simpl in *; lia).
      replace (Z.pos m) with 1. reflexivity.
    + lia.
    + assert (Hp : 53 - d = 52 - Z.pos p) by lia. rewrite Hp.
      change (Z.pos (2 ^ 52)) with (2 ^ 52).
      replace (2 ^ 52) with (2 ^ Z.pos p * 2 ^ (52 - Z.pos p)).
      * symmetry. apply Zmult_compare_compat_r. apply Z.lt_gt, Z.pow_pos_nonneg; lia.
      * rewrite <- Z.pow_add_r by lia. f_equal. lia.
  - (* 2 <= e + d *)
    symmetry. destruct e as [|p|p]; unfold cmp_one; apply Z.compare_lt_iff.
    + assert (2 ^ 1 <= 2 ^ (d - 1)) by (apply Z.pow_le_mono_r; lia).
      change (2 ^ 1) with 2 in *. change (2 ^ 0) with 1. lia.
    + assert (2 ^ 1 <= 2 ^ Z.pos p) by (apply Z.pow_le_mono_r; lia).
      change (2 ^ 1) with 2 in *. nia.
    + assert (2 ^ (Z.pos p + 1) <= 2 ^ (d - 1)) by (apply Z.pow_le_mono_r; lia).
      rewrite Z.pow_add_r in * by lia. change (2 ^ 1) with 2 in *.
      assert (0 < 2 ^ Z.pos p) by (apply Z.pow_pos_nonneg; lia). lia.
  - (* e + d <= 0 *)
    symmetry. destruct e as [|p|p]; try lia. unfold cmp_one. apply Z.compare_gt_iff.
    assert (2 ^ d <= 2 ^ Z.pos p) by (apply Z.pow_le_mono_r; lia). lia.
Qed.

Lemma cmp_one_Q m e :
  cmp_one m e = Qcompare 1 (JS.Qvalue (S754_finite false m e)).
Proof.
  unfold cmp_one, JS.Qvalue, Qcompare, inject_Z.
  destruct e as [|p|p]; cbn [cond_Zopp Qnum Qden].
  - f_equal; lia.
  - f_equal; lia.
  - rewrite Pos2Z.inj_pow. f_equal; lia.
Qed.

Lemma compare_one m e : Z.pos (digits2_pos m) <= 53 ->
  SFcompare (JS.lit 1) (canon false m e) = Some (cmp_one m e).
Proof.
  intros Hd. change (JS.lit 1) with (S754_finite false (2 ^ 52) (-52)).
  unfold canon. cbn [SFcompare]. f_equal. now apply compare_mantissa_one.
Qed.

Lemma compare_minus_one m e : Z.pos (digits2_pos m) <= 53 ->
  SFcompare (JS.lit (-1)) (canon true m e) = Some (CompOpp (cmp_one m e)).
Proof.
  intros Hd. change (JS.lit (-1)) with (S754_finite true (2 ^ 52) (-52)).
  unfold canon. cbn [SFcompare]. f_equal.
  rewrite <- (compare_mantissa_one m e Hd).
  destruct (-52 ?= e - (53 - Z.pos (digits2_pos m))); reflexivity.
Qed.

Lemma canon_one m e : Z.pos (digits2_pos m) <= 53 ->
  cmp_one m e = Eq -> canon false m e = JS.lit 1 /\ canon true m e = JS.lit (-1).
Proof.
  intros Hd Hc. pose proof (digits_bounds m) as [Hl Hu].
  assert (Hm : exists q, 0 <= q /\ e = - q /\ Z.pos m = 2 ^ q).
  { unfold cmp_one in Hc. destruct e as [|p|p]; apply Z.compare_eq in Hc.
    - exists 0. change (2 ^ 0) with 1 in *. lia.
    - assert (2 ^ 1 <= 2 ^ Z.pos p) by (apply Z.pow_le_mono_r; lia).
      change (2 ^ 1) with 2 in *. nia.
    - exists (Z.pos p). lia. }
  destruct Hm as (q & Hq & -> & Hm).
  rewrite Hm in Hl, Hu.
  apply Z.pow_lt_mono_r_iff in Hu; try lia.
  apply Z.pow_le_mono_r_iff in Hl; try lia.
  assert (HM : Z.pos m * 2 ^ (53 - Z.pos (digits2_pos m)) = 2 ^ 52).
  { rewrite Hm, <- Z.pow_add_r by lia. f_equal. lia. }
  unfold canon. rewrite HM.
  change (JS.lit 1) with (S754_finite false (2 ^ 52) (-52)).
  change (JS.lit (-1)) with (S754_finite true (2 ^ 52) (-52)).
  split; f_equal; lia.
Qed.

(** *** The exact side: clamping and scaling on rationals *)

Lemma Qlt_bool_compare x y :
  Qlt_bool x y = match Qcompare x y with Lt => true | _ => false end.
Proof.
  unfold Qlt_bool, Qle_bool, Qcompare.
  destruct (Z.compare_spec (Qnum x * QDen y) (Qnum y * QDen x));
    destruct (Z.leb_spec (Qnum y * QDen x) (Qnum x * QDen y)); simpl; try reflexivity; lia.
Qed.

Lemma scaled_above v : Qcompare 1 v = Lt -> Qtrunc (scaled v) = 32767.
Proof.
  intros H. unfold scaled, Qclamp. rewrite (Qlt_bool_compare 1 v), H. reflexivity.
Qed.

Lemma scaled_below v : Qcompare v (-1) = Lt -> Qtrunc (scaled v) = -32768.
Proof.
  intros H. unfold scaled, Qclamp. rewrite (Qlt_bool_compare v (-1)), H.
  destruct (Qlt_bool 1 v) eqn:H1.
  - exfalso. rewrite Qlt_bool_compare in H1.
    unfold Qcompare in *. cbn [Qnum Qden] in *.
    destruct (Z.compare_spec (1 * QDen v) (Qnum v * 1)); try discriminate.
    destruct (Z.compare_spec (Qnum v * 1) (-1 * QDen v)); try discriminate. lia.
  - reflexivity.
Qed.

Lemma Qlt_bool_false (x y : Q) :
  Qnum y * QDen x <= Qnum x * QDen y -> Qlt_bool x y = false.
Proof. intros H. unfold Qlt_bool, Qle_bool. apply negb_false_iff, Z.leb_le, H. Qed.

Lemma Qlt_bool_true (x y : Q) :
  Qnum x * QDen y < Qnum y * QDen x -> Qlt_bool x y = true.
Proof. intros H. unfold Qlt_bool, Qle_bool. apply negb_true_iff, Z.leb_gt, H. Qed.

Lemma scaled_pos m p : Z.pos m <= 2 ^ Z.pos p ->
  Qtrunc (scaled (Z.pos m # 2 ^ p)) = (Z.pos m * 32767) / 2 ^ Z.pos p.
Proof.
  intros Hm.
  assert (Hp : 0 < 2 ^ Z.pos p) by (apply Z.pow_pos_nonneg; lia).
  unfold scaled, Qclamp.
  rewrite (Qlt_bool_false 1) by (cbn [Qnum Qden]; rewrite Pos2Z.inj_pow; lia).
  rewrite (Qlt_bool_false _ (-1)) by (cbn [Qnum Qden]; rewrite Pos2Z.inj_pow; lia).
  rewrite (Qlt_bool_false _ 0) by (cbn [Qnum Qden]; lia).
  unfold Qtrunc, Qle_bool, Qmult, Qfloor. cbn [Qnum Qden].
  rewrite Pos2Z.inj_mul, Pos2Z.inj_pow.
  destruct (Z.leb_spec (0 * (2 ^ Z.pos p * 1)) (Z.pos m * 32767 * 1)); [|nia].
  f_equal. lia.
Qed.

Lemma scaled_neg m p : Z.pos m <= 2 ^ Z.pos p ->
  Qtrunc (scaled (Z.neg m # 2 ^ p)) = - ((Z.pos m * 32768) / 2 ^ Z.pos p).
Proof.
  intros Hm.
  assert (Hp : 0 < 2 ^ Z.pos p) by (apply Z.pow_pos_nonneg; lia).
  unfold scaled, Qclamp.
  rewrite (Qlt_bool_false 1) by (cbn [Qnum Qden]; rewrite Pos2Z.inj_pow; lia).
  rewrite (Qlt_bool_false _ (-1)) by (cbn [Qnum Qden]; rewrite Pos2Z.inj_pow; lia).
  rewrite (Qlt_bool_true _ 0) by (cbn [Qnum Qden]; lia).
  unfold Qtrunc, Qle_bool, Qmult, Qceiling, Qfloor, Qopp. cbn [Qnum Qden].
  rewrite Pos2Z.inj_mul, Pos2Z.inj_pow.
  destruct (Z.leb_spec (0 * (2 ^ Z.pos p * 1)) (Z.neg m * 32768 * 1)); [nia|].
  f_equal. f_equal; lia.
Qed.

(** *** One sample *)

Lemma cmp_one_small m e : cmp_one m e <> Lt ->
  (e = 0 /\ m = 1%positive) \/ exists p, e = Z.neg p /\ Z.pos m <= 2 ^ Z.pos p.
Proof.
  unfold cmp_one. intros H. destruct e as [|p|p].
  - left. split; [reflexivity|]. destruct (Z.compare_spec 1 (Z.pos m * 2 ^ 0)); try congruence;
      change (2 ^ 0) with 1 in *; lia.
  - exfalso. apply H. apply Z.compare_lt_iff.
    assert (2 ^ 1 <= 2 ^ Z.pos p) by (apply Z.pow_le_mono_r; lia).
    change (2 ^ 1) with 2 in *. nia.
  - right. exists p. split; [reflexivity|].
    destruct (Z.compare_spec (2 ^ Z.pos p) (Z.pos m)); try congruence; lia.
Qed.

Lemma shiftl_neg a p : Z.shiftl a (Z.neg p + 0) = a / 2 ^ Z.pos p.
Proof.
  rewrite Z.add_0_r. change (Z.shiftl a (Z.neg p)) with (Z.shiftr a (Z.pos p)).
  apply Z.shiftr_div_pow2. lia.
Qed.

Lemma cmp_one_Q_neg m e :
  cmp_one m e = Qcompare (JS.Qvalue (S754_finite true m e)) (-1).
Proof.
  unfold cmp_one, JS.Qvalue, Qcompare, inject_Z.
  destruct e as [|p|p]; cbn [cond_Zopp Qnum Qden].
  - replace (- Z.pos m * 2 ^ 0 * 1) with (- (Z.pos m * 2 ^ 0)) by ring.
    generalize (Z.pos m * 2 ^ 0). intros z.
    destruct (Z.compare_spec 1 z); destruct (Z.compare_spec (- z) (-1 * 1));
      try reflexivity; exfalso; lia.
  - replace (- Z.pos m * 2 ^ Z.pos p * 1) with (- (Z.pos m * 2 ^ Z.pos p)) by ring.
    generalize (Z.pos m * 2 ^ Z.pos p). intros z.
    destruct (Z.compare_spec 1 z); destruct (Z.compare_spec (- z) (-1 * 1));
      try reflexivity; exfalso; lia.
  - rewrite Pos2Z.inj_pow. generalize (2 ^ Z.pos p). intros z.
    destruct (Z.compare_spec z (Z.pos m));
      destruct (Z.compare_spec (- Z.pos m * 1) (-1 * z)); try reflexivity; exfalso; lia.
Qed.

Lemma clamp_pos_big m e : Z.pos (digits2_pos m) <= 53 ->
  cmp_one m e = Lt -> clamp (canon false m e) = JS.lit 1.
Proof.
  intros Hd Hc. unfold clamp, JS.Math_min. rewrite (compare_one m e Hd), Hc. reflexivity.
Qed.

Lemma clamp_pos_small m e : Z.pos (digits2_pos m) <= 53 ->
  cmp_one m e <> Lt -> clamp (canon false m e) = canon false m e.
Proof.
  intros Hd Hc. unfold clamp, JS.Math_min. rewrite (compare_one m e Hd).
  destruct (cmp_one m e) eqn:Hc'; try congruence.
  - destruct (canon_one m e Hd Hc') as [-> _]. reflexivity.
  - reflexivity.
Qed.

Lemma clamp_neg_big m e : Z.pos (digits2_pos m) <= 53 ->
  cmp_one m e = Lt -> clamp (canon true m e) = JS.lit (-1).
Proof.
  intros Hd Hc. unfold clamp.
  change (JS.Math_min (JS.lit 1) (canon true m e)) with (canon true m e).
  unfold JS.Math_max. rewrite (compare_minus_one m e Hd), Hc. reflexivity.
Qed.

Lemma clamp_neg_small m e : Z.pos (digits2_pos m) <= 53 ->
  cmp_one m e <> Lt -> clamp (canon true m e) = canon true m e.
Proof.
  intros Hd Hc. unfold clamp.
  change (JS.Math_min (JS.lit 1) (canon true m e)) with (canon true m e).
  unfold JS.Math_max. rewrite (compare_minus_one m e Hd).
  destruct (cmp_one m e) eqn:Hc'; try congruence.
  - destruct (canon_one m e Hd Hc') as [_ ->]. reflexivity.
  - reflexivity.
Qed.

Lemma scale_canon s m e k :
  Z.pos (digits2_pos m) <= 24 -> -149 <= e <= 104 -> Z.pos (digits2_pos k) <= 16 ->
  JS.truncate (JS.mul (canon s m e) (canon false k 0))
  = cond_Zopp s (Z.shiftl (Z.pos (m * k)) (e + 0)).
Proof.
  intros Hd He Hk. pose proof (digits_mul m k) as [_ Hmk].
  pose proof (Pos2Z.is_pos (digits2_pos (m * k))).
  rewrite mul_canon by lia. rewrite xorb_false_r. apply truncate_canon. lia.
Qed.

Lemma sample_pos_small m e :
  Z.pos (digits2_pos m) <= 24 -> -149 <= e <= 104 -> cmp_one m e <> Lt ->
  JS.truncate (JS.mul (canon false m e) (canon false 32767 0))
  = Qtrunc (scaled (JS.Qvalue (S754_finite false m e))) /\
  -32768 <= JS.truncate (JS.mul (canon false m e) (canon false 32767 0)) <= 32767.
Proof.
  intros Hd He Hc. rewrite scale_canon by (auto; simpl; lia).
  destruct (cmp_one_small m e Hc) as [[-> ->] | (p & -> & Hp)].
  - vm_compute. repeat split; discriminate.
  - rewrite shiftl_neg. cbn [JS.Qvalue cond_Zopp]. rewrite (scaled_pos m p Hp).
    rewrite Pos2Z.inj_mul. split; [reflexivity|].
    assert (0 < 2 ^ Z.pos p) by (apply Z.pow_pos_nonneg; lia).
    assert (0 <= (Z.pos m * 32767) / 2 ^ Z.pos p) by (apply Z.div_pos; lia).
    assert ((Z.pos m * 32767) / 2 ^ Z.pos p <= 32767) by (apply Z.div_le_upper_bound; lia).
    lia.
Qed.

Lemma sample_neg_small m e :
  Z.pos (digits2_pos m) <= 24 -> -149 <= e <= 104 -> cmp_one m e <> Lt ->
  JS.truncate (JS.mul (canon true m e) (canon false 32768 0))
  = Qtrunc (scaled (JS.Qvalue (S754_finite true m e))) /\
  -32768 <= JS.truncate (JS.mul (canon true m e) (canon false 32768 0)) <= 32767.
Proof.
  intros Hd He Hc. rewrite scale_canon by (auto; simpl; lia).
  destruct (cmp_one_small m e Hc) as [[-> ->] | (p & -> & Hp)].
  - vm_compute. repeat split; discriminate.
  - rewrite shiftl_neg. cbn [JS.Qvalue cond_Zopp].
    change (- Z.pos m) with (Z.neg m). rewrite (scaled_neg m p Hp).
    rewrite Pos2Z.inj_mul. split; [reflexivity|].
    assert (0 < 2 ^ Z.pos p) by (apply Z.pow_pos_nonneg; lia).
    assert (0 <= (Z.pos m * 32768) / 2 ^ Z.pos p) by (apply Z.div_pos; lia).
    assert ((Z.pos m * 32768) / 2 ^ Z.pos p <= 32768) by (apply Z.div_le_upper_bound; lia).
    lia.
Qed.

Theorem quantize_exact x :
  JS.is_float32 x -> is_finite x = true ->
  JS.truncate (quantize x) = Qtrunc (scaled (JS.Qvalue x)) /\
  -32768 <= JS.truncate (quantize x) <= 32767.
Proof.
  intros Hx Hfin. destruct x as [s | s | | s m e]; try discriminate.
  - destruct s; vm_compute; repeat split; discriminate.
  - destruct (float32_is_canon s m e Hx) as (Hd & He & Hy).
    assert (Hd53 : Z.pos (digits2_pos m) <= 53) by lia.
    unfold quantize. rewrite Hy. fold (clamp (canon s m e)). clear Hy Hx Hfin.
    destruct (comparison_eq_dec (cmp_one m e) Lt) as [Hc|Hc]; destruct s.
    + rewrite (clamp_neg_big m e Hd53 Hc).
      rewrite scaled_below by (rewrite <- cmp_one_Q_neg; exact Hc).
      vm_compute. repeat split; discriminate.
    + rewrite (clamp_pos_big m e Hd53 Hc).
      rewrite scaled_above by (rewrite <- cmp_one_Q; exact Hc).
      vm_compute. repeat split; discriminate.
    + rewrite (clamp_neg_small m e Hd53 Hc).
      now apply sample_neg_small.
    + rewrite (clamp_pos_small m e Hd53 Hc).
      now apply sample_pos_small.
Qed.

End Exact.

(** ** The buffers: what the helpers write *)

Section Buffers.

Lemma store_fresh {A} (zero : A) off done raw n :
  length done = off -> (length raw <= n)%nat ->
  Buf.store off raw (done ++ replicate n zero)
  = Some ((done ++ raw) ++ replicate (n - length raw) zero).
Proof.
  intros <- Hn. unfold Buf.store.
  rewrite decide_True by (rewrite length_app, length_replicate; lia).
  f_equal.
  replace (length done) with (length done + 0)%nat by lia.
  rewrite list_inserts_app_r.
  replace n with (length raw + (n - length raw))%nat at 1 by lia.
  rewrite replicate_add, list_inserts_0_r by (now rewrite length_replicate).
  now rewrite app_assoc.
Qed.

Lemma foldl_total (chunks : list (list JS.float32)) : forall acc,
  foldl (fun acc chunk => (acc + length chunk)%nat) acc chunks
  = (acc + length (concat chunks))%nat.
Proof.
  induction chunks as [|c cs IH]; intros acc; simpl.
  - lia.
  - rewrite IH, length_app. lia.
Qed.

Lemma mergeLoop_spec chunks : forall done,
  mergeLoop chunks (length done)
    (done ++ replicate (length (concat chunks)) (S754_zero false))
  = Some (done ++ concat chunks).
Proof.
  induction chunks as [|c cs IH]; intros done; simpl.
  - reflexivity.
  - rewrite length_app.
    rewrite (store_fresh (S754_zero false) (length done) done c) by (auto; lia). simpl.
    replace (length c + length (concat cs) - length c)%nat with (length (concat cs)) by lia.
    replace (length done + length c)%nat with (length (done ++ c)) by (now rewrite length_app).
    rewrite IH. now rewrite <- app_assoc.
Qed.

Lemma mergeBuffers_concat chunks : mergeBuffers chunks = Some (concat chunks).
Proof.
  unfold mergeBuffers, Buf.Float32Array. rewrite foldl_total. simpl.
  apply (mergeLoop_spec chunks []).
Qed.

Lemma length_le_bytes n : forall z, length (Buf.le_bytes n z) = n.
Proof. induction n; intros z; simpl; auto. Qed.

Lemma le_value_bytes n : forall z, Buf.le_value (Buf.le_bytes n z) = z mod 2 ^ (8 * Z.of_nat n).
Proof.
  induction n as [|n IH]; intros z.
  - simpl. now rewrite Z.mod_1_r.
  - cbn [Buf.le_bytes Buf.le_value]. rewrite IH.
    replace (8 * Z.of_nat (S n)) with (8 + 8 * Z.of_nat n) by lia.
    rewrite Z.pow_add_r by lia. change (2 ^ 8) with 256.
    rewrite Z.rem_mul_r by (try apply Z.pow_nonzero; lia). reflexivity.
Qed.

(** [setUint8] keeps the low byte of a code unit. *)
Lemma char_byte c :
  is_code_unit c ->
  Buf.le_bytes 1 (JS.wrapU 8 (JS.truncate (JS.lit c))) = [c mod 256].
Proof.
  intros Hc. unfold is_code_unit in Hc.
  rewrite truncate_lit by (change (2 ^ 53) with 9007199254740992; lia).
  unfold JS.wrapU. change (2 ^ 8) with 256. cbn [Buf.le_bytes].
  rewrite Z.mod_mod by lia. reflexivity.
Qed.

Lemma writeStringFrom_fresh string : forall i offset done n,
  Forall is_code_unit string ->
  length done = (offset + i)%nat -> (length string <= n)%nat ->
  writeStringFrom i offset string (done ++ replicate n 0)
  = Some ((done ++ map (fun c => c mod 256) string)
          ++ replicate (n - length string) 0).
Proof.
  induction string as [|c cs IH]; intros i offset done n Hu Hd Hn; simpl in *.
  - now rewrite app_nil_r, Nat.sub_0_r.
  - apply Forall_cons in Hu as [Hc Hcs].
    unfold Buf.seq, Buf.setUint8. rewrite (char_byte c Hc).
    rewrite (store_fresh 0 (offset + i)%nat done [c mod 256] n)
      by (simpl; lia).
    simpl.
    rewrite (IH (S i) offset (done ++ [c mod 256]) (n - 1)%nat);
      [ | exact Hcs | rewrite length_app; simpl; lia | lia ].
    f_equal. rewrite <- !app_assoc. simpl.
    replace (n - 1 - length cs)%nat with (n - S (length cs))%nat by lia. reflexivity.
Qed.

Lemma length_charCodes s : length (Buf.charCodes s) = String.length s.
Proof. unfold Buf.charCodes. rewrite length_map. induction s; simpl; auto. Qed.

Lemma charCodes_code_units s : Forall is_code_unit (Buf.charCodes s).
Proof.
  unfold Buf.charCodes. apply Forall_fmap, Forall_forall. intros c _.
  pose proof (nat_ascii_bounded c). unfold is_code_unit. simpl. lia.
Qed.

Lemma charCodes_low_bytes s : map (fun c => c mod 256) (Buf.charCodes s) = Buf.charCodes s.
Proof.
  unfold Buf.charCodes. rewrite map_map. apply map_ext. intros c.
  pose proof (nat_ascii_bounded c). apply Z.mod_small. lia.
Qed.

Lemma writeString_fresh offset s done n :
  length done = offset -> (String.length s <= n)%nat ->
  writeString offset (Buf.charCodes s) (done ++ replicate n 0)
  = Some ((done ++ Buf.charCodes s) ++ replicate (n - String.length s) 0).
Proof.
  intros Hd Hn. unfold writeString.
  rewrite writeStringFrom_fresh
    by (try apply charCodes_code_units; rewrite ?length_charCodes; lia).
  now rewrite charCodes_low_bytes, length_charCodes.
Qed.

Lemma length_wav_data buf : length (wav_data buf) = (length buf * 2)%nat.
Proof.
  unfold wav_data. induction buf as [|x xs IH]; [reflexivity|].
  cbn [flat_map length]. rewrite length_app, length_le_bytes, IH. reflexivity.
Qed.

Lemma writeSamples_fresh buf : forall offset done n,
  length done = offset -> (length buf * 2 <= n)%nat ->
  writeSamples buf offset (done ++ replicate n 0)
  = Some ((done ++ wav_data buf) ++ replicate (n - length buf * 2) 0).
Proof.
  induction buf as [|x xs IH]; intros offset done n Hd Hn; simpl in *.
  - now rewrite app_nil_r, Nat.sub_0_r.
  - unfold Buf.seq, Buf.setInt16.
    rewrite (store_fresh 0 offset done (Buf.le_bytes 2 (JS.ToInt16 (quantize x))) n)
      by (rewrite ?length_le_bytes; lia).
    rewrite length_le_bytes. cbn [mbind option_bind].
    rewrite (IH (offset + 2)%nat (done ++ Buf.le_bytes 2 (JS.ToInt16 (quantize x))) (n - 2)%nat);
      [ | rewrite length_app, length_le_bytes; lia | lia ].
    f_equal. unfold wav_data. cbn [flat_map]. rewrite <- !app_assoc.
    replace (n - 2 - length xs * 2)%nat with (n - S (S (length xs * 2)))%nat by lia.
    reflexivity.
Qed.

Lemma setUint32_fresh off v done n :
  length done = off -> (4 <= n)%nat ->
  Buf.setUint32 off v (done ++ replicate n 0)
  = Some ((done ++ Buf.le_bytes 4 (JS.ToUint32 v)) ++ replicate (n - 4) 0).
Proof.
  intros Hd Hn. unfold Buf.setUint32.
  rewrite (store_fresh 0 off) by (rewrite ?length_le_bytes; lia).
  now rewrite length_le_bytes.
Qed.

Lemma setUint16_fresh off v done n :
  length done = off -> (2 <= n)%nat ->
  Buf.setUint16 off v (done ++ replicate n 0)
  = Some ((done ++ Buf.le_bytes 2 (JS.wrapU 16 (JS.truncate v))) ++ replicate (n - 2) 0).
Proof.
  intros Hd Hn. unfold Buf.setUint16.
  rewrite (store_fresh 0 off) by (rewrite ?length_le_bytes; lia).
  now rewrite length_le_bytes.
Qed.

Ltac lengths := rewrite ?length_app, ?length_le_bytes; simpl; lia.

Ltac write_step :=
  first
    [ rewrite writeString_fresh by lengths
    | rewrite setUint32_fresh by lengths
    | rewrite setUint16_fresh by lengths
    | rewrite writeSamples_fresh by lengths ];
  cbn [mbind option_bind].

Theorem createWavBlob_spec buf sr :
  createWavBlob buf sr
  = Some {| blob_bytes := wav_header (length buf) sr ++ wav_data buf;
            blob_type := "audio/wav" |}.
Proof.
  unfold createWavBlob, Buf.ArrayBuffer. cbv zeta.
  change (1 * (16 / 8))%nat with 2%nat.
  unfold Buf.seq.
  change (replicate (44 + length buf * 2) 0) with ([] ++ replicate (44 + length buf * 2) 0).
  do 14 write_step.
  match goal with |- context [replicate ?k 0] => replace k with 0%nat by (simpl; lia) end.
  do 2 f_equal. cbn [replicate]. rewrite app_nil_r.
  unfold wav_header. rewrite <- !app_assoc. reflexivity.
Qed.

Lemma createWavBlob_revised buf sr : createWavBlob' buf sr = createWavBlob buf sr.
Proof. reflexivity. Qed.

Corollary encoder_spec v buf sr :
  encoder v buf sr
  = Some {| blob_bytes := wav_header (length buf) sr ++ wav_data buf;
            blob_type := "audio/wav" |}.
Proof. destruct v; [|change (createWavBlob' buf sr) with (createWavBlob buf sr)]; apply createWavBlob_spec. Qed.

(** *** Reading the container back *)

Lemma field_at (view pre x post : list Z) off n :
  view = pre ++ x ++ post -> length pre = off -> length x = n ->
  take n (drop off view) = x.
Proof.
  intros -> Hp Hx. rewrite drop_app_length' by done. now rewrite take_app_length'.
Qed.

Lemma length_wav_header L sr : length (wav_header L sr) = 44%nat.
Proof. unfold wav_header. rewrite !length_app, !length_le_bytes. reflexivity. Qed.

Lemma length_container L sr buf :
  length (wav_header L sr ++ wav_data buf) = (44 + length buf * 2)%nat.
Proof. now rewrite length_app, length_wav_header, length_wav_data. Qed.

Lemma wrapU_range bits z : 0 <= bits -> 0 <= JS.wrapU bits z < 2 ^ bits.
Proof. intros. unfold JS.wrapU. apply Z.mod_pos_bound, Z.pow_pos_nonneg; lia. Qed.

Lemma wrapS_range z : -32768 <= JS.wrapS 16 z <= 32767.
Proof.
  unfold JS.wrapS. change (2 ^ (16 - 1)) with 32768. change (2 ^ 16) with 65536.
  pose proof (Z.mod_pos_bound z 65536 ltac:(lia)).
  destruct (Z.leb_spec 32768 (z mod 65536)); lia.
Qed.

Lemma wrapS_small z : -32768 <= z <= 32767 -> JS.wrapS 16 z = z.
Proof.
  intros Hz. unfold JS.wrapS. change (2 ^ (16 - 1)) with 32768. change (2 ^ 16) with 65536.
  destruct (Z_lt_le_dec z 0).
  - replace (z mod 65536) with (z + 65536).
    + destruct (Z.leb_spec 32768 (z + 65536)); lia.
    + apply Z.mod_unique with (-1); lia.
  - rewrite Z.mod_small by lia. destruct (Z.leb_spec 32768 z); lia.
Qed.

Lemma wrapS_mod z : JS.wrapS 16 (z mod 2 ^ 16) = JS.wrapS 16 z.
Proof. unfold JS.wrapS. rewrite Z.mod_mod by (change (2 ^ 16) with 65536; lia). reflexivity. Qed.

Lemma read_uint32 z : 0 <= z < 2 ^ 32 -> Buf.le_value (Buf.le_bytes 4 z) = z.
Proof. intros Hz. rewrite le_value_bytes. apply Z.mod_small. exact Hz. Qed.

Lemma read_int16 z : -32768 <= z <= 32767 -> JS.wrapS 16 (Buf.le_value (Buf.le_bytes 2 z)) = z.
Proof.
  intros Hz. rewrite le_value_bytes. change (8 * Z.of_nat 2) with 16.
  rewrite wrapS_mod. now apply wrapS_small.
Qed.

Section Header.
Variables (L : nat) (sr : spec_float) (data : list Z).

Let f0 := Buf.charCodes "RIFF".
Let f4 := Buf.le_bytes 4 (JS.ToUint32 (num (36 + L * 2))).
Let f8 := Buf.charCodes "WAVE".
Let f12 := Buf.charCodes "fmt ".
Let f16 := Buf.le_bytes 4 16.
Let f20 := Buf.le_bytes 2 1.
Let f22 := Buf.le_bytes 2 1.
Let f24 := Buf.le_bytes 4 (JS.ToUint32 sr).
Let f28 := Buf.le_bytes 4 (JS.ToUint32 (JS.mul sr (num 2))).
Let f32 := Buf.le_bytes 2 2.
Let f34 := Buf.le_bytes 2 16.
Let f36 := Buf.charCodes "data".
Let f40 := Buf.le_bytes 4 (JS.ToUint32 (num (L * 2))).

Let view := wav_header L sr ++ data.

Lemma header_split (pre x post : list Z) off n :
  pre ++ x ++ post
  = f0 ++ f4 ++ f8 ++ f12 ++ f16 ++ f20 ++ f22 ++ f24 ++ f28 ++ f32 ++ f34 ++ f36 ++ f40 ++ data ->
  length pre = off -> length x = n ->
  take n (drop off view) = x.
Proof.
  intros Hv Hp Hx. apply (field_at view pre x post); try assumption.
  rewrite Hv. unfold view, wav_header. rewrite <- !app_assoc. reflexivity.
Qed.

Ltac slice pre post :=
  apply (header_split pre _ post);
  [ rewrite <- ?app_assoc; reflexivity | reflexivity | reflexivity ].

Lemma parse_wav_header :
  parse_header view
  = {| riffTag := Buf.charCodes "RIFF";
       chunkSize := JS.ToUint32 (num (36 + L * 2));
       waveTag := Buf.charCodes "WAVE";
       fmtTag := Buf.charCodes "fmt ";
       subchunk1Size := 16;
       audioFormat := 1;
       numChannels := 1;
       sampleRateField := JS.ToUint32 sr;
       byteRate := JS.ToUint32 (JS.mul sr (num 2));
       blockAlignField := 2;
       bitsPerSample := 16;
       dataTag := Buf.charCodes "data";
       subchunk2Size := JS.ToUint32 (num (L * 2)) |}.
Proof.
  unfold parse_header, Buf.getString, Buf.getUint32, Buf.getUint16.
  assert (H0 : take 4 (drop 0 view) = f0)
    by slice (@nil Z) (f4 ++ f8 ++ f12 ++ f16 ++ f20 ++ f22 ++ f24 ++ f28 ++ f32 ++ f34 ++ f36 ++ f40 ++ data).
  assert (H4 : take 4 (drop 4 view) = f4)
    by slice f0 (f8 ++ f12 ++ f16 ++ f20 ++ f22 ++ f24 ++ f28 ++ f32 ++ f34 ++ f36 ++ f40 ++ data).
  assert (H8 : take 4 (drop 8 view) = f8)
    by slice (f0 ++ f4) (f12 ++ f16 ++ f20 ++ f22 ++ f24 ++ f28 ++ f32 ++ f34 ++ f36 ++ f40 ++ data).
  assert (H12 : take 4 (drop 12 view) = f12)
    by slice (f0 ++ f4 ++ f8) (f16 ++ f20 ++ f22 ++ f24 ++ f28 ++ f32 ++ f34 ++ f36 ++ f40 ++ data).
  assert (H16 : take 4 (drop 16 view) = f16)
    by slice (f0 ++ f4 ++ f8 ++ f12) (f20 ++ f22 ++ f24 ++ f28 ++ f32 ++ f34 ++ f36 ++ f40 ++ data).
  assert (H20 : take 2 (drop 20 view) = f20)
    by slice (f0 ++ f4 ++ f8 ++ f12 ++ f16) (f22 ++ f24 ++ f28 ++ f32 ++ f34 ++ f36 ++ f40 ++ data).
  assert (H22 : take 2 (drop 22 view) = f22)
    by slice (f0 ++ f4 ++ f8 ++ f12 ++ f16 ++ f20) (f24 ++ f28 ++ f32 ++ f34 ++ f36 ++ f40 ++ data).
  assert (H24 : take 4 (drop 24 view) = f24)
    by slice (f0 ++ f4 ++ f8 ++ f12 ++ f16 ++ f20 ++ f22) (f28 ++ f32 ++ f34 ++ f36 ++ f40 ++ data).
  assert (H28 : take 4 (drop 28 view) = f28)
    by slice (f0 ++ f4 ++ f8 ++ f12 ++ f16 ++ f20 ++ f22 ++ f24) (f32 ++ f34 ++ f36 ++ f40 ++ data).
  assert (H32 : take 2 (drop 32 view) = f32)
    by slice (f0 ++ f4 ++ f8 ++ f12 ++ f16 ++ f20 ++ f22 ++ f24 ++ f28) (f34 ++ f36 ++ f40 ++ data).
  assert (H34 : take 2 (drop 34 view) = f34)
    by slice (f0 ++ f4 ++ f8 ++ f12 ++ f16 ++ f20 ++ f22 ++ f24 ++ f28 ++ f32) (f36 ++ f40 ++ data).
  assert (H36 : take 4 (drop 36 view) = f36)
    by slice (f0 ++ f4 ++ f8 ++ f12 ++ f16 ++ f20 ++ f22 ++ f24 ++ f28 ++ f32 ++ f34) (f40 ++ data).
  assert (H40 : take 4 (drop 40 view) = f40)
    by slice (f0 ++ f4 ++ f8 ++ f12 ++ f16 ++ f20 ++ f22 ++ f24 ++ f28 ++ f32 ++ f34 ++ f36) data.
  rewrite H0, H4, H8, H12, H16, H20, H22, H24, H28, H32, H34, H36, H40.
  unfold f0, f4, f8, f12, f16, f20, f22, f24, f28, f32, f34, f36, f40.
  f_equal; try reflexivity; apply read_uint32, wrapU_range; lia.
Qed.

End Header.

Lemma drop_wav_data buf : forall i,
  drop (i * 2) (wav_data buf) = wav_data (drop i buf).
Proof.
  unfold wav_data. induction buf as [|x xs IH]; intros [|i]; try reflexivity.
  cbn [flat_map]. change (S i * 2)%nat with (2 + i * 2)%nat.
  rewrite drop_app_add' by (now rewrite length_le_bytes). apply IH.
Qed.

Lemma encoder_bytes v buf sr b :
  encoder v buf sr = Some b ->
  blob_bytes b = wav_header (length buf) sr ++ wav_data buf.
Proof. rewrite encoder_spec. intros [= <-]. reflexivity. Qed.

Lemma sample16_at v buf sr i x b :
  buf !! i = Some x -> encoder v buf sr = Some b ->
  sample16 b i = JS.ToInt16 (quantize x).
Proof.
  intros Hx Hb. unfold sample16, Buf.getInt16. rewrite (encoder_bytes _ _ _ _ Hb).
  rewrite drop_app_add' by (now rewrite length_wav_header).
  replace (2 * i)%nat with (i * 2)%nat by lia.
  rewrite drop_wav_data, (drop_S _ _ _ Hx).
  unfold wav_data. cbn [flat_map].
  rewrite take_app_length' by (now rewrite length_le_bytes).
  apply read_int16, wrapS_range.
Qed.

End Buffers.

(** ** The handlers *)

Section Handlers.

Ltac hsimpl :=
  repeat progress
    (unfold mbind, mret, handler_bind, handler_ret, get, return_, throw, alert, emit,
       lift, set_recordedBlob, set_currentRecording, clear_audioFiles, try_catch_finally,
       run, await_fetch, Revised.await_text, Revised.await_blob, Static.await_json;
     cbn beta iota zeta;
     cbn [fst snd currentRecording recorder recordedBlob uploadAudioHidden audioFiles
          imageFiles extractImageFiles nFftValue hopLengthValue log append_log negb]).

Lemma for_each_emit {A} (f : A -> Event) l : forall w,
  for_each l (fun x w => (Normal tt, append_log w [f x])) w
  = (Normal tt, append_log w (map f l)).
Proof.
  induction l as [|x xs IH]; intros w.
  - cbn [for_each map]. unfold append_log. rewrite app_nil_r. destruct w; reflexivity.
  - cbn [for_each map]. hsimpl. rewrite IH. unfold append_log. hsimpl.
    rewrite <- app_assoc. reflexivity.
Qed.

Lemma stop_without_session v w :
  currentRecording w = None -> stop_handler v w = (Return, w).
Proof.
  intros H. destruct v; unfold stop_handler, Static.stop_click, Revised.stop_click;
    hsimpl; rewrite H; reflexivity.
Qed.

Lemma static_stop w r :
  currentRecording w = Some r ->
  Static.stop_click w =
  (Normal tt,
   {| currentRecording := None; recorder := recorder w;
      recordedBlob := Some (recorded r); uploadAudioHidden := uploadAudioHidden w;
      audioFiles := []; imageFiles := imageFiles w;
      extractImageFiles := extractImageFiles w; nFftValue := nFftValue w;
      hopLengthValue := hopLengthValue w;
      log := log w
             ++ (if recorder w
                 then [Disconnect "recorder"; Disconnect "mediaStreamSource"] else [])
             ++ map TrackStop (stream r)
             ++ [CreateObjectURL (recorded r);
                 Dom "recordedAudio" "src" "audioUrl";
                 Dom "recordedAudio" "classList.remove" "hidden";
                 Dom "recordingStatus" "textContent" "✅ Recording saved!";
                 Dom "recordingStatus" "style.background" "#95E1D3";
                 Dom "startRecordBtn" "disabled" "false";
                 Dom "stopRecordBtn" "disabled" "true";
                 Dom "audioFileName" "classList.remove" "show"] |}).
Proof.
  intros H. unfold Static.stop_click. hsimpl. rewrite H.
  destruct (recorder w) eqn:Hr; hsimpl; rewrite for_each_emit; hsimpl;
    rewrite mergeBuffers_concat; hsimpl; rewrite createWavBlob_spec; hsimpl;
    unfold append_log; hsimpl;
    rewrite ?Hr; unfold recorded; rewrite <- ?app_assoc; reflexivity.
Qed.

Lemma revised_stop w r :
  currentRecording w = Some r -> recorder w = true ->
  Revised.stop_click w =
  (Normal tt,
   {| currentRecording := None; recorder := true;
      recordedBlob := Some (recorded r); uploadAudioHidden := uploadAudioHidden w;
      audioFiles := []; imageFiles := imageFiles w;
      extractImageFiles := extractImageFiles w; nFftValue := nFftValue w;
      hopLengthValue := hopLengthValue w;
      log := log w
             ++ [Disconnect "recorder"; Disconnect "mediaStreamSource"]
             ++ map TrackStop (stream r)
             ++ [CreateObjectURL (recorded r);
                 Dom "recordedAudio" "src" "objectURL";
                 Dom "recordedAudio" "classList.remove" "hidden";
                 Dom "recordingStatus" "textContent" "✅ Saved!";
                 Dom "stopRecordBtn" "disabled" "true";
                 Dom "startRecordBtn" "disabled" "false";
                 Dom "audioFileName" "classList.remove" "show"] |}).
Proof.
  intros H Hr. unfold Revised.stop_click. hsimpl. rewrite H, Hr. hsimpl.
  rewrite for_each_emit. hsimpl. rewrite mergeBuffers_concat. hsimpl.
  change (createWavBlob' ?b ?s) with (createWavBlob b s).
  rewrite createWavBlob_spec. hsimpl. unfold append_log. hsimpl.
  rewrite ?Hr. unfold recorded. rewrite <- ?app_assoc. reflexivity.
Qed.

Lemma revised_stop_without_recorder w r :
  currentRecording w = Some r -> recorder w = false ->
  Revised.stop_click w = (Throw "TypeError", w).
Proof.
  intros H Hr. unfold Revised.stop_click. hsimpl. rewrite H, Hr. reflexivity.
Qed.

(** The blob a stop stores depends on the recording alone: its chunks and its
    sample rate, not the rest of the world. *)
Lemma stop_blob_of_recording v w r :
  currentRecording w = Some r -> recorder w = true ->
  recordedBlob (run (stop_handler v) w) = Some (recorded r).
Proof.
  intros H Hr. unfold run. destruct v; cbn [stop_handler].
  - now rewrite (static_stop w r H).
  - now rewrite (revised_stop w r H Hr).
Qed.

Lemma stop_clears_session v w0 c w :
  stop_handler v w0 = (c, w) -> (forall msg, c <> Throw msg) -> currentRecording w = None.
Proof.
  intros Hs Hc. destruct (currentRecording w0) as [r|] eqn:Hw0.
  - destruct v; cbn [stop_handler] in Hs.
    + rewrite (static_stop w0 r Hw0) in Hs. injection Hs as <- <-. reflexivity.
    + destruct (recorder w0) eqn:Hr.
      * rewrite (revised_stop w0 r Hw0 Hr) in Hs. injection Hs as <- <-. reflexivity.
      * rewrite (revised_stop_without_recorder w0 r Hw0 Hr) in Hs.
        injection Hs as <- <-. now destruct (Hc "TypeError").
  - rewrite (stop_without_session v w0 Hw0) in Hs. injection Hs as <- <-. exact Hw0.
Qed.

(** C8. When [window.currentRecording] is absent, which includes the world
    left by a stop that ran to completion, the click on stop returns at once:
    no exception, and the world is unchanged, so nothing is disconnected, no
    track is stopped (the log is the same) and [recordedBlob] is the same. *)
Theorem stop_is_noop_without_session v w :
  currentRecording w = None \/
  (exists w0 c, stop_handler v w0 = (c, w) /\ forall msg, c <> Throw msg) ->
  stop_handler v w = (Return, w).
Proof.
  intros [H | (w0 & c & Hs & Hc)]; apply stop_without_session; [exact H|].
  exact (stop_clears_session v w0 c w Hs Hc).
Qed.

Lemma stop_twice_witness :
  (currentRecording (run (stop_handler static) recording) = None \/
   (exists w0 c, stop_handler static w0 = (c, run (stop_handler static) recording) /\
                 forall msg, c <> Throw msg)) /\
  stop_handler static (run (stop_handler static) recording)
  = (Return, run (stop_handler static) recording).
Proof.
  assert (H : currentRecording (run (stop_handler static) recording) = None \/
              (exists w0 c, stop_handler static w0 = (c, run (stop_handler static) recording) /\
                            forall msg, c <> Throw msg)).
  { right. exists recording, (Normal tt). split; [vm_compute; reflexivity | discriminate]. }
  split; [exact H|].
  exact (stop_is_noop_without_session static (run (stop_handler static) recording) H).
Defined.

(** C9. If a required input is absent (embed: no recording or no selected
    audio file, according to the active panel, or no image; extract: no
    image), the handler of either copy alerts and returns: the only effects
    are the alert and the hiding of the spinner by [finally]; no [Fetch]
    event occurs, whatever the service is. *)
Theorem missing_input_rejected v s env w :
  missing_input s w ->
  exists message,
    submit_handler v s env w
    = (Return, append_log w [Alert message; Dom "loading" "classList.add" "hidden"]).
Proof.
  intros H. destruct v, s; cbn [submit_handler missing_input] in *;
    unfold Static.embed_click, Static.extract_click, Revised.embed_click,
      Revised.extract_click; hsimpl.
  all: try (rewrite H; hsimpl; eexists; unfold append_log; hsimpl;
            rewrite <- ?app_assoc; reflexivity).
  all: destruct H as [[-> ->] | [[-> ->] | ->]]; hsimpl;
    try (eexists; unfold append_log; hsimpl; rewrite <- ?app_assoc; reflexivity).
  all: destruct (uploadAudioHidden w); [destruct (recordedBlob w) | destruct (audioFiles w)];
    hsimpl; eexists; unfold append_log; hsimpl; rewrite <- ?app_assoc; reflexivity.
Qed.

Lemma missing_input_rejected_witness :
  missing_input Embed idle /\
  exists message,
    submit_handler static Embed failing_service idle
    = (Return, append_log idle [Alert message; Dom "loading" "classList.add" "hidden"]).
Proof.
  assert (H : missing_input Embed idle) by (right; left; split; reflexivity).
  split; [exact H|].
  exact (missing_input_rejected static Embed failing_service idle H).
Defined.

Ltac finish := unfold append_log; hsimpl; rewrite <- ?app_assoc; reflexivity.

Lemma revised_failure_verbatim s env w endpoint form r :
  request s w = Some (endpoint, form) ->
  fetch env endpoint form = Resolved r -> ok r = false ->
  submit_handler revised s env w
  = (Normal tt,
     append_log w [Dom "loading" "classList.remove" "hidden"; Fetch endpoint form;
                   ReadBody AsText; Alert ("Error: " +:+ text r);
                   Dom "loading" "classList.add" "hidden"]).
Proof.
  intros Hreq Hf Hok. destruct w as [cr rc rb hidden afs ifs efs nf hl lg].
  destruct s; cbn [submit_handler request] in *;
    unfold Revised.embed_click, Revised.extract_click; hsimpl; cbn in Hreq.
  - destruct hidden; [destruct rb | destruct afs]; try discriminate;
      (destruct ifs; [discriminate|]); cbn in Hreq; injection Hreq as <- <-;
      hsimpl; rewrite Hf; hsimpl; rewrite Hok; finish.
  - destruct efs; [discriminate|]. cbn in Hreq; injection Hreq as <- <-.
    hsimpl; rewrite Hf; hsimpl; rewrite Hok; finish.
Qed.

Lemma static_failure_parses_json s env w endpoint form r message :
  request s w = Some (endpoint, form) ->
  fetch env endpoint form = Resolved r -> json r = inl message ->
  submit_handler static s env w
  = (Normal tt,
     append_log w [Dom "loading" "classList.remove" "hidden"; Fetch endpoint form;
                   ReadBody AsJson; Alert ("❌ Error: " +:+ message);
                   Dom "loading" "classList.add" "hidden"]).
Proof.
  intros Hreq Hf Hj. destruct w as [cr rc rb hidden afs ifs efs nf hl lg].
  destruct s; cbn [submit_handler request] in *;
    unfold Static.embed_click, Static.extract_click; hsimpl; cbn in Hreq.
  - destruct hidden; [destruct rb | destruct afs]; try discriminate;
      (destruct ifs; [discriminate|]); cbn in Hreq; injection Hreq as <- <-;
      hsimpl; rewrite Hf; hsimpl; rewrite Hj; finish.
  - destruct efs; [discriminate|]. cbn in Hreq; injection Hreq as <- <-.
    hsimpl; rewrite Hf; hsimpl; rewrite Hj; finish.
Qed.

(** C7, evaluated where static/script.js departs from it. The service answers
    the embed request with a non-success status and the plain-text body
    "Internal Server Error". The handler of static/script.js reads the body
    with [response.json()] and alerts the parser's message, the body text is
    lost; the handler of the revised script reads it with [response.text()]
    and alerts it verbatim. *)
Theorem static_embed_failure_not_verbatim :
  log (run (submit_handler static Embed failing_service) ready)
  = [Dom "loading" "classList.remove" "hidden";
     Fetch "/api/embed"
       [("audio_file", FilePart wav); ("image_file", FilePart png);
        ("n_fft", TextPart "2048"); ("hop_length", TextPart "512")];
     ReadBody AsJson;
     Alert "❌ Error: Unexpected token I in JSON at position 0";
     Dom "loading" "classList.add" "hidden"] /\
  log (run (submit_handler revised Embed failing_service) ready)
  = [Dom "loading" "classList.remove" "hidden";
     Fetch "/api/embed"
       [("audio_file", FilePart wav); ("image_file", FilePart png);
        ("n_fft", TextPart "2048"); ("hop_length", TextPart "512")];
     ReadBody AsText;
     Alert "Error: Internal Server Error";
     Dom "loading" "classList.add" "hidden"].
Proof. split; reflexivity. Qed.

End Handlers.

(** ** The container *)

Section Container.

Lemma ToUint32_num n : Z.of_nat n < 2 ^ 32 -> JS.ToUint32 (num n) = Z.of_nat n.
Proof.
  intros Hn. unfold JS.ToUint32, JS.wrapU, num.
  rewrite truncate_lit by (change (2 ^ 53) with 9007199254740992;
                           change (2 ^ 32) with 4294967296 in Hn; lia).
  apply Z.mod_small. lia.
Qed.

Lemma ToUint32_lit z : 0 <= z < 2 ^ 32 -> JS.ToUint32 (JS.lit z) = z.
Proof.
  intros Hz. unfold JS.ToUint32, JS.wrapU.
  rewrite truncate_lit by (change (2 ^ 53) with 9007199254740992;
                           change (2 ^ 32) with 4294967296 in Hz; lia).
  apply Z.mod_small. lia.
Qed.

Lemma ToUint32_byte_rate z : 0 <= z < 2 ^ 31 -> JS.ToUint32 (JS.mul (JS.lit z) (num 2)) = z * 2.
Proof.
  intros Hz. unfold JS.ToUint32, JS.wrapU. change (num 2) with (JS.lit 2).
  change (2 ^ 31) with 2147483648 in Hz.
  rewrite truncate_mul_two by (change (2 ^ 52) with 4503599627370496; lia).
  rewrite Z.mul_comm. apply Z.mod_small. change (2 ^ 32) with 4294967296. lia.
Qed.

(** C1, as amended. For a buffer of [L] samples with [36 + 2L < 2^32] and an
    integer sample rate [n] with [0 <= n < 2^31], both copies of
    [createWavBlob] return a container of exactly [44 + 2L] bytes whose header
    reads: "RIFF", ChunkSize [36 + 2L], "WAVE", "fmt ", Subchunk1Size 16,
    AudioFormat 1, NumChannels 1, SampleRate [n], ByteRate [2n], BlockAlign 2,
    BitsPerSample 16, "data", Subchunk2Size [2L]. The bounds are those of the
    unsigned 32-bit fields, which [setUint32] fills modulo 2^32. *)
Theorem header_invariants v buf n :
  36 + 2 * Z.of_nat (length buf) < 2 ^ 32 -> 0 <= n < 2 ^ 31 ->
  exists b,
    encoder v buf (JS.lit n) = Some b /\
    length (blob_bytes b) = (44 + 2 * length buf)%nat /\
    parse_header (blob_bytes b)
    = {| riffTag := Buf.charCodes "RIFF";
         chunkSize := 36 + 2 * Z.of_nat (length buf);
         waveTag := Buf.charCodes "WAVE";
         fmtTag := Buf.charCodes "fmt ";
         subchunk1Size := 16;
         audioFormat := 1;
         numChannels := 1;
         sampleRateField := n;
         byteRate := n * 2;
         blockAlignField := 2;
         bitsPerSample := 16;
         dataTag := Buf.charCodes "data";
         subchunk2Size := 2 * Z.of_nat (length buf) |}.
Proof.
  intros HL Hn. eexists. split; [apply encoder_spec|]. cbn [blob_bytes]. split.
  - rewrite length_container. lia.
  - rewrite parse_wav_header.
    rewrite !ToUint32_num by lia.
    rewrite ToUint32_byte_rate by exact Hn.
    rewrite ToUint32_lit by (change (2 ^ 31) with 2147483648 in Hn;
                             change (2 ^ 32) with 4294967296; lia).
    f_equal; lia.
Qed.

Lemma header_invariants_witness :
  (36 + 2 * Z.of_nat (length [f32_quarter; f32_one]) < 2 ^ 32 /\ 0 <= 44100 < 2 ^ 31) /\
  exists b,
    encoder static [f32_quarter; f32_one] (JS.lit 44100) = Some b /\
    length (blob_bytes b) = (44 + 2 * length [f32_quarter; f32_one])%nat /\
    parse_header (blob_bytes b)
    = {| riffTag := Buf.charCodes "RIFF";
         chunkSize := 36 + 2 * Z.of_nat (length [f32_quarter; f32_one]);
         waveTag := Buf.charCodes "WAVE";
         fmtTag := Buf.charCodes "fmt ";
         subchunk1Size := 16;
         audioFormat := 1;
         numChannels := 1;
         sampleRateField := 44100;
         byteRate := 44100 * 2;
         blockAlignField := 2;
         bitsPerSample := 16;
         dataTag := Buf.charCodes "data";
         subchunk2Size := 2 * Z.of_nat (length [f32_quarter; f32_one]) |}.
Proof.
  assert (H1 : 36 + 2 * Z.of_nat (length [f32_quarter; f32_one]) < 2 ^ 32) by (vm_compute; reflexivity).
  assert (H2 : 0 <= 44100 < 2 ^ 31) by (vm_compute; split; [discriminate | reflexivity]).
  split; [split; assumption|].
  exact (header_invariants static [f32_quarter; f32_one] 44100 H1 H2).
Defined.

(** C1 as stated fails: at the sample rate 2^31 (and no samples) the
    SampleRate field holds 2^31 and the ByteRate field holds 0, not twice the
    sample rate, because [setUint32] stores [2^32] modulo 2^32. *)
Lemma header_byte_rate_wraps :
  exists b,
    encoder static [] (JS.lit (2 ^ 31)) = Some b /\
    sampleRateField (parse_header (blob_bytes b)) = 2 ^ 31 /\
    byteRate (parse_header (blob_bytes b)) = 0 /\
    byteRate (parse_header (blob_bytes b)) <> sampleRateField (parse_header (blob_bytes b)) * 2.
Proof.
  eexists. split; [vm_compute; reflexivity|]. vm_compute. repeat split; discriminate.
Qed.

(** C4. Whatever the sample rate, encoding the empty buffer succeeds and
    gives exactly 44 bytes, with ChunkSize 36 and Subchunk2Size 0. *)
Theorem empty_buffer_container v sr :
  exists b,
    encoder v [] sr = Some b /\
    length (blob_bytes b) = 44%nat /\
    chunkSize (parse_header (blob_bytes b)) = 36 /\
    subchunk2Size (parse_header (blob_bytes b)) = 0.
Proof.
  eexists. split; [apply encoder_spec|]. cbn [blob_bytes]. split.
  - now rewrite length_container.
  - rewrite parse_wav_header. cbn [chunkSize subchunk2Size]. split; reflexivity.
Qed.

(** C5. [mergeBuffers] returns the concatenation of the blocks in the order
    of the list, of length the sum of the block lengths; three blocks
    [a], [b], [c] give [a ++ b ++ c], and no block gives the empty buffer. *)
Theorem mergeBuffers_flattens :
  (forall chunks, mergeBuffers chunks = Some (concat chunks) /\
                  length (concat chunks) = sum_list (map length chunks)) /\
  (forall a b c, mergeBuffers [a; b; c] = Some (a ++ b ++ c)) /\
  mergeBuffers [] = Some [].
Proof.
  split; [|split].
  - intros chunks. split; [apply mergeBuffers_concat|].
    induction chunks as [|c cs IH]; [reflexivity|].
    cbn [concat map sum_list sum_list_with]. rewrite length_app, IH. reflexivity.
  - intros a b c. rewrite mergeBuffers_concat. cbn [concat]. now rewrite app_nil_r.
  - apply mergeBuffers_concat.
Qed.

(** C10. The encoder returns a container for every buffer and sample rate
    (no RangeError of the view is ever raised); every 16-bit sample a decoder
    reads lies in [-32768, 32767]; a NaN sample reads back as 0, +Infinity as
    32767 and -Infinity as -32768. NaN survives the clamp, [NaN < 0] is
    false, the product with 0x7FFF is NaN, and ToInt16 of NaN is 0. *)
Theorem encoder_total v buf sr :
  exists b,
    encoder v buf sr = Some b /\
    (forall i, (i < length buf)%nat -> -32768 <= sample16 b i <= 32767) /\
    (forall i, buf !! i = Some JS.NaN -> sample16 b i = 0) /\
    (forall i, buf !! i = Some JS.Infinity -> sample16 b i = 32767) /\
    (forall i, buf !! i = Some JS.negInfinity -> sample16 b i = -32768) /\
    clamp (JS.of_float32 JS.NaN) = JS.NaN /\
    JS.lt JS.NaN (JS.lit 0) = false /\
    JS.mul JS.NaN (JS.lit 32767) = JS.NaN /\
    JS.ToInt16 JS.NaN = 0.
Proof.
  destruct (encoder v buf sr) as [b|] eqn:Hb; [|rewrite encoder_spec in Hb; discriminate].
  exists b. split; [reflexivity|]. repeat split.
  - destruct (lookup_lt_is_Some_2 buf i H) as [x Hx].
    rewrite (sample16_at _ _ _ _ _ _ Hx Hb). apply wrapS_range.
  - destruct (lookup_lt_is_Some_2 buf i H) as [x Hx].
    rewrite (sample16_at _ _ _ _ _ _ Hx Hb). apply wrapS_range.
  - intros i Hi. now rewrite (sample16_at _ _ _ _ _ _ Hi Hb).
  - intros i Hi. now rewrite (sample16_at _ _ _ _ _ _ Hi Hb).
  - intros i Hi. now rewrite (sample16_at _ _ _ _ _ _ Hi Hb).
Qed.

(** C2, as amended. For a finite binary32 sample [x] at position [i], of
    exact value [q], the 16-bit value at position [i] of the container is the
    truncation toward zero of [c * 32768] when [c < 0] and of [c * 32767]
    otherwise, where [c] is [q] clamped to [-1, 1]: the scaling is the
    asymmetric one, the conversion truncates, it does not round. *)
Theorem samples_truncated v buf sr i x :
  buf !! i = Some x -> JS.is_float32 x -> is_finite x = true ->
  exists b, encoder v buf sr = Some b /\ sample16 b i = Qtrunc (scaled (JS.Qvalue x)).
Proof.
  intros Hi Hx Hfin.
  destruct (encoder v buf sr) as [b|] eqn:Hb; [|rewrite encoder_spec in Hb; discriminate].
  exists b. split; [reflexivity|].
  rewrite (sample16_at _ _ _ _ _ _ Hi Hb).
  destruct (quantize_exact x Hx Hfin) as [<- Hr].
  apply wrapS_small, Hr.
Qed.

Lemma samples_truncated_witness :
  ([f32_quarter] !! 0%nat = Some f32_quarter /\ JS.is_float32 f32_quarter /\
   is_finite f32_quarter = true) /\
  exists b, encoder static [f32_quarter] (JS.lit 44100) = Some b /\
            sample16 b 0 = Qtrunc (scaled (JS.Qvalue f32_quarter)).
Proof.
  assert (H1 : [f32_quarter] !! 0%nat = Some f32_quarter) by reflexivity.
  assert (H2 : JS.is_float32 f32_quarter) by (vm_compute; reflexivity).
  assert (H3 : is_finite f32_quarter = true) by reflexivity.
  split; [repeat split; assumption|].
  exact (samples_truncated static [f32_quarter] (JS.lit 44100) 0 f32_quarter H1 H2 H3).
Defined.

(** C2 as stated fails: the binary32 sample 0.25 scales to
    0.25 * 32767 = 8191.75, whose nearest integer is 8192, and the encoder
    emits 8191. *)
Lemma quarter_not_rounded :
  exists b,
    encoder static [f32_quarter] (JS.lit 44100) = Some b /\
    JS.is_float32 f32_quarter /\
    (JS.Qvalue f32_quarter == 1 # 4)%Q /\
    (scaled (JS.Qvalue f32_quarter) == 32767 # 4)%Q /\
    sample16 b 0 = 8191 /\
    ~ nearest (scaled (JS.Qvalue f32_quarter)) (sample16 b 0).
Proof.
  eexists. split; [vm_compute; reflexivity|].
  split; [vm_compute; reflexivity|].
  split; [vm_compute; reflexivity|].
  split; [vm_compute; reflexivity|].
  split; [vm_compute; reflexivity|].
  intros H. vm_compute in H. apply H. reflexivity.
Qed.

End Container.

(** ** The encoder on the heap *)

Section Heap.

Lemma script_bind_assoc {A B C} (m : script A) (f : A -> script B) (k : B -> script C) s :
  ((m ≫= f) ≫= k) s = (m ≫= (fun a => f a ≫= k)) s.
Proof.
  unfold mbind, script_bind. destruct (m s) as [[a| |msg] s']; reflexivity.
Qed.

Lemma bind_length_of {A} array (k : nat -> script A) w fs bufs samples :
  fs !! array = Some samples ->
  (OnHeap.length_of array ≫= k) {| page := w; float32Arrays := fs; arrayBuffers := bufs |}
  = k (length samples) {| page := w; float32Arrays := fs; arrayBuffers := bufs |}.
Proof.
  intros H. unfold mbind, script_bind, OnHeap.length_of. cbn [float32Arrays]. now rewrite H.
Qed.

Lemma bind_element {A} array i (k : JS.float32 -> script A) w fs bufs samples x :
  fs !! array = Some samples -> samples !! i = Some x ->
  (OnHeap.element array i ≫= k) {| page := w; float32Arrays := fs; arrayBuffers := bufs |}
  = k x {| page := w; float32Arrays := fs; arrayBuffers := bufs |}.
Proof.
  intros H Hx. unfold mbind, script_bind, OnHeap.element. cbn [float32Arrays].
  now rewrite H, Hx.
Qed.

Lemma bind_write {A} buffer f (k : unit -> script A) w fs bufs bytes bytes' :
  buffer = length bufs -> f bytes = Some bytes' ->
  (OnHeap.write buffer f ≫= k)
    {| page := w; float32Arrays := fs; arrayBuffers := bufs ++ [bytes] |}
  = k tt {| page := w; float32Arrays := fs; arrayBuffers := bufs ++ [bytes'] |}.
Proof.
  intros -> Hf. unfold mbind, script_bind, OnHeap.write. cbn [arrayBuffers page float32Arrays].
  rewrite lookup_app_r, Nat.sub_diag by lia. cbn [lookup list_lookup]. rewrite Hf.
  rewrite insert_app_r_alt, Nat.sub_diag by lia. reflexivity.
Qed.

Lemma bind_writeStringFrom {A} string :
  forall i offset (k : unit -> script A) w fs bufs bytes bytes',
  writeStringFrom i offset string bytes = Some bytes' ->
  (OnHeap.writeStringFrom (length bufs) i offset string ≫= k)
    {| page := w; float32Arrays := fs; arrayBuffers := bufs ++ [bytes] |}
  = k tt {| page := w; float32Arrays := fs; arrayBuffers := bufs ++ [bytes'] |}.
Proof.
  induction string as [|c cs IH]; intros i offset k w fs bufs bytes bytes' H.
  - cbn in H. injection H as <-. reflexivity.
  - cbn [writeStringFrom] in H. unfold Buf.seq in H.
    apply bind_Some in H as (mid & H1 & H2).
    cbn [OnHeap.writeStringFrom]. rewrite script_bind_assoc.
    rewrite (bind_write _ _ _ _ _ _ _ _ eq_refl H1). now apply IH.
Qed.

Lemma bind_writeString {A} view offset string (k : unit -> script A) w fs bufs bytes bytes' :
  view = length bufs -> writeString offset string bytes = Some bytes' ->
  (OnHeap.writeString view offset string ≫= k)
    {| page := w; float32Arrays := fs; arrayBuffers := bufs ++ [bytes] |}
  = k tt {| page := w; float32Arrays := fs; arrayBuffers := bufs ++ [bytes'] |}.
Proof. intros ->. apply bind_writeStringFrom. Qed.

Lemma bind_sampleLoop {A} array samples rest :
  forall i offset (k : unit -> script A) w fs bufs bytes bytes',
  fs !! array = Some samples -> drop i samples = rest ->
  writeSamples rest offset bytes = Some bytes' ->
  (OnHeap.sampleLoop array (length bufs) (length rest) i offset ≫= k)
    {| page := w; float32Arrays := fs; arrayBuffers := bufs ++ [bytes] |}
  = k tt {| page := w; float32Arrays := fs; arrayBuffers := bufs ++ [bytes'] |}.
Proof.
  induction rest as [|x xs IH]; intros i offset k w fs bufs bytes bytes' Hs Hd H.
  - cbn in H. injection H as <-. reflexivity.
  - cbn [writeSamples] in H. unfold Buf.seq in H.
    apply bind_Some in H as (mid & H1 & H2).
    assert (Hx : samples !! i = Some x).
    { rewrite <- (Nat.add_0_r i), <- lookup_drop, Hd. reflexivity. }
    assert (Hd' : drop (S i) samples = xs).
    { pose proof (drop_S _ _ _ Hx) as E. rewrite Hd in E. now injection E. }
    cbn [length OnHeap.sampleLoop]. rewrite script_bind_assoc.
    rewrite (bind_element array i _ _ _ _ samples x Hs Hx).
    rewrite script_bind_assoc.
    rewrite (bind_write _ _ _ _ _ _ _ _ eq_refl H1). now apply IH.
Qed.

Lemma new_Blob_last buffer type w fs bufs bytes :
  buffer = length bufs ->
  OnHeap.new_Blob buffer type
    {| page := w; float32Arrays := fs; arrayBuffers := bufs ++ [bytes] |}
  = (Normal {| blob_bytes := bytes; blob_type := type |},
     {| page := w; float32Arrays := fs; arrayBuffers := bufs ++ [bytes] |}).
Proof.
  intros ->. unfold OnHeap.new_Blob. cbn [arrayBuffers].
  rewrite lookup_app_r, Nat.sub_diag by lia. reflexivity.
Qed.

Ltac heap_step :=
  first
    [ erewrite bind_writeString by (eassumption || reflexivity)
    | erewrite bind_write by (eassumption || reflexivity) ].

(** The program on the heap computes the container of the function
    [createWavBlob], and leaves the store as it was but for its own
    buffer. *)
Lemma encoder_on_heap_spec v array sr s samples :
  float32Arrays s !! array = Some samples ->
  exists b,
    encoder v samples sr = Some b /\
    encoder_on_heap v array sr s = (Normal b, allocated s (blob_bytes b)).
Proof.
  intros Hs. destruct s as [w fs bufs]. cbn [float32Arrays] in Hs.
  eexists. split; [apply encoder_spec|].
  destruct v; cbn [encoder_on_heap].
  - pose proof (createWavBlob_spec samples sr) as H. unfold createWavBlob in H. cbv zeta in H.
    apply bind_Some in H as (view & H & Hv).
    assert (view = wav_header (length samples) sr ++ wav_data samples) by congruence.
    subst view. clear Hv.
    unfold Buf.seq in H.
    repeat match type of H with
           | _ ≫= _ = Some _ => let Hk := fresh "Hk" in apply bind_Some in H as (? & H & Hk)
           end.
    unfold OnHeap.createWavBlob. cbv zeta.
    rewrite (bind_length_of array _ _ _ _ samples Hs).
    unfold mbind at 1, script_bind at 1, OnHeap.new_ArrayBuffer at 1, allocated at 1.
    cbn [arrayBuffers page float32Arrays]. unfold Buf.ArrayBuffer in *.
    do 13 heap_step.
    erewrite (bind_sampleLoop array samples samples 0) by (eassumption || reflexivity).
    unfold allocated. cbn [page float32Arrays arrayBuffers blob_bytes].
    now apply new_Blob_last.
  - pose proof (createWavBlob_spec samples sr) as H.
    change (createWavBlob samples sr) with (createWavBlob' samples sr) in H.
    unfold createWavBlob' in H. cbv zeta in H.
    apply bind_Some in H as (view & H & Hv).
    assert (view = wav_header (length samples) sr ++ wav_data samples) by congruence.
    subst view. clear Hv.
    unfold Buf.seq in H.
    repeat match type of H with
           | _ ≫= _ = Some _ => let Hk := fresh "Hk" in apply bind_Some in H as (? & H & Hk)
           end.
    unfold OnHeap.createWavBlob'. cbv zeta.
    rewrite (bind_length_of array _ _ _ _ samples Hs).
    unfold mbind at 1, script_bind at 1, OnHeap.new_ArrayBuffer at 1, allocated at 1.
    cbn [arrayBuffers page float32Arrays]. unfold Buf.ArrayBuffer in *.
    do 13 heap_step.
    erewrite (bind_sampleLoop array samples samples 0) by (eassumption || reflexivity).
    unfold allocated. cbn [page float32Arrays arrayBuffers blob_bytes].
    now apply new_Blob_last.
Qed.

(** C6. The encoder run as a program on the heap of the script, in any two
    states of the script that hold the same samples in the array it is
    given (the pages, the other arrays and buffers, and the reference of the
    array may all differ): both runs complete with the same blob, byte for
    byte, which is the container of the samples and the sample rate; and
    each run leaves its state as it found it (the globals, the controls and
    the log of effects of the page, every array and every buffer that
    existed), but for the buffer it allocated for itself. *)
Theorem encoder_deterministic_pure v sr samples array1 array2 s1 s2 :
  float32Arrays s1 !! array1 = Some samples ->
  float32Arrays s2 !! array2 = Some samples ->
  exists b,
    encoder v samples sr = Some b /\
    encoder_on_heap v array1 sr s1 = (Normal b, allocated s1 (blob_bytes b)) /\
    encoder_on_heap v array2 sr s2 = (Normal b, allocated s2 (blob_bytes b)).
Proof.
  intros H1 H2.
  destruct (encoder_on_heap_spec v array1 sr s1 samples H1) as (b & Hb & Hr1).
  destruct (encoder_on_heap_spec v array2 sr s2 samples H2) as (b' & Hb' & Hr2).
  rewrite Hb in Hb'. injection Hb' as <-.
  exists b. repeat split; assumption.
Qed.

Lemma encoder_deterministic_pure_witness :
  float32Arrays quiet !! 0%nat = Some [f32_quarter; f32_one] /\
  float32Arrays busy !! 1%nat = Some [f32_quarter; f32_one] /\
  exists b,
    encoder static [f32_quarter; f32_one] (JS.lit 44100) = Some b /\
    encoder_on_heap static 0 (JS.lit 44100) quiet = (Normal b, allocated quiet (blob_bytes b)) /\
    encoder_on_heap static 1 (JS.lit 44100) busy = (Normal b, allocated busy (blob_bytes b)).
Proof.
  split; [reflexivity|]. split; [reflexivity|].
  exact (encoder_deterministic_pure static (JS.lit 44100) [f32_quarter; f32_one]
           0%nat 1%nat quiet busy eq_refl eq_refl).
Defined.

End Heap.

(** ** The encoder, further: drift, error bounds, and what reaches which byte *)

Section Drift.

Lemma int16_float32 s a :
  Z.pos a <= 32768 ->
  let j := 24 - Z.pos (digits2_pos a) in
  exists M p,
    Z.pos M = Z.pos a * 2 ^ j /\ Z.pos p = 15 + j /\ 9 <= j + 1 /\
    Z.to_pos (Z.pos a * 2 ^ j) = M /\ -15 - j = Z.neg p /\
    JS.is_float32 (S754_finite s M (Z.neg p)).
Proof.
  intros Ha j.
  assert (Hd : Z.pos (digits2_pos a) <= 16).
  { apply digits_le; [lia|]. change (2 ^ 16) with 65536. lia. }
  assert (Hj : 8 <= j) by (unfold j; lia).
  assert (Hpow : 0 < 2 ^ j) by (apply Z.pow_pos_nonneg; lia).
  exists (Z.to_pos (Z.pos a * 2 ^ j)), (Z.to_pos (15 + j)).
  assert (HM : Z.pos (Z.to_pos (Z.pos a * 2 ^ j)) = Z.pos a * 2 ^ j) by (apply Z2Pos.id; lia).
  assert (Hp : Z.pos (Z.to_pos (15 + j)) = 15 + j) by (apply Z2Pos.id; lia).
  repeat split; try assumption; try lia.
  unfold JS.is_float32. cbn [valid_binary]. unfold bounded, canonical_mantissa, fexp, emin.
  rewrite (digits_shift a j ltac:(lia) _ HM).
  apply andb_true_iff. split; [apply Z.eqb_eq | apply Z.leb_le]; unfold j in *; lia.
Qed.

Lemma div_cancel_pow a c j : 0 <= j -> 0 < c ->
  (a * 2 ^ j) / (c * 2 ^ j) = a / c.
Proof.
  intros Hj Hc. apply Z.div_mul_cancel_r; [lia|].
  apply Z.pow_nonzero; lia.
Qed.

Lemma sample_of_quantize x :
  JS.is_float32 x -> is_finite x = true ->
  JS.ToInt16 (quantize x) = Qtrunc (scaled (JS.Qvalue x)).
Proof.
  intros Hx Hf. destruct (quantize_exact x Hx Hf) as [<- Hr].
  apply wrapS_small, Hr.
Qed.

(** X1. Decoding and encoding again is not the identity. A decoder turns
    the 16-bit sample [k] into the binary32 number [k / 32768] (exactly);
    the sample loop turns that number back into [k] when [k] is zero or
    negative, and into [k - 1] when [k] is positive: positive samples are
    scaled by 32767 and truncated, so each pass through the encoder lowers
    every positive sample by one. *)
Theorem reencode_drift k :
  -32768 <= k <= 32767 ->
  JS.is_float32 (f32_of_int16 k) /\
  (JS.Qvalue (f32_of_int16 k) == k # 32768)%Q /\
  JS.ToInt16 (quantize (f32_of_int16 k)) = if 0 <? k then k - 1 else k.
Proof.
  intros Hk. destruct k as [|a|a].
  - vm_compute. repeat split; reflexivity.
  - destruct (int16_float32 false a ltac:(lia)) as (M & p & HM & Hp & Hj & HMeq & HE & Hf32).
    cbn [f32_of_int16]. cbv zeta. rewrite HMeq, HE.
    set (j := 24 - Z.pos (digits2_pos a)) in *.
    assert (Hpow : 0 < 2 ^ j) by (apply Z.pow_pos_nonneg; lia).
    assert (H2p : 2 ^ Z.pos p = 32768 * 2 ^ j).
    { rewrite Hp, Z.pow_add_r by lia. reflexivity. }
    split; [exact Hf32|]. split.
    + unfold Qeq. cbn [JS.Qvalue cond_Zopp Qnum Qden]. rewrite (Pos2Z.inj_pow 2 p), HM, H2p.
      change (Z.pos 32768) with 32768. ring.
    + rewrite sample_of_quantize by (exact Hf32 || reflexivity).
      cbn [JS.Qvalue cond_Zopp]. rewrite scaled_pos by (rewrite HM, H2p; nia).
      rewrite HM, H2p.
      replace (Z.pos a * 2 ^ j * 32767) with (Z.pos a * 32767 * 2 ^ j) by ring.
      rewrite div_cancel_pow by lia.
      change (0 <? Z.pos a) with true. cbv iota.
      symmetry. apply Z.div_unique with (32768 - Z.pos a); lia.
  - destruct (int16_float32 true a ltac:(lia)) as (M & p & HM & Hp & Hj & HMeq & HE & Hf32).
    cbn [f32_of_int16]. cbv zeta. rewrite HMeq, HE.
    set (j := 24 - Z.pos (digits2_pos a)) in *.
    assert (Hpow : 0 < 2 ^ j) by (apply Z.pow_pos_nonneg; lia).
    assert (H2p : 2 ^ Z.pos p = 32768 * 2 ^ j).
    { rewrite Hp, Z.pow_add_r by lia. reflexivity. }
    split; [exact Hf32|]. split.
    + unfold Qeq. cbn [JS.Qvalue cond_Zopp Qnum Qden]. rewrite (Pos2Z.inj_pow 2 p), H2p.
      change (Z.pos 32768) with 32768. try change (Z.neg M) with (- Z.pos M).
      rewrite HM. change (Z.neg a) with (- Z.pos a). ring.
    + rewrite sample_of_quantize by (exact Hf32 || reflexivity).
      cbn [JS.Qvalue cond_Zopp]. change (- Z.pos M) with (Z.neg M).
      rewrite scaled_neg by (rewrite HM, H2p; nia).
      rewrite HM, H2p.
      replace (Z.pos a * 2 ^ j * 32768) with (Z.pos a * 32768 * 2 ^ j) by ring.
      rewrite div_cancel_pow by lia.
      change (0 <? Z.neg a) with false. cbv iota.
      rewrite Z.div_mul by lia. reflexivity.
Qed.

Lemma reencode_drift_witness :
  -32768 <= 1000 <= 32767 /\
  (JS.is_float32 (f32_of_int16 1000) /\
   (JS.Qvalue (f32_of_int16 1000) == 1000 # 32768)%Q /\
   JS.ToInt16 (quantize (f32_of_int16 1000)) = if 0 <? 1000 then 1000 - 1 else 1000).
Proof.
  assert (H : -32768 <= 1000 <= 32767) by lia.
  split; [exact H | exact (reencode_drift 1000 H)].
Defined.

End Drift.

Section Rationals.

Lemma Qlt_bool_iff x y : Qlt_bool x y = true <-> (x < y)%Q.
Proof.
  unfold Qlt_bool. rewrite negb_true_iff. split.
  - intros H. apply Qnot_le_lt. intros Hle. apply Qle_bool_iff in Hle. congruence.
  - intros H. destruct (Qle_bool y x) eqn:E; [|reflexivity].
    apply Qle_bool_iff in E. exfalso. apply (Qlt_not_le _ _ H E).
Qed.

Lemma Qlt_bool_not x y : Qlt_bool x y = false <-> (y <= x)%Q.
Proof.
  unfold Qlt_bool. rewrite negb_false_iff. apply Qle_bool_iff.
Qed.

Lemma Qclamp_cases v :
  ((1 < v)%Q /\ Qclamp v = 1%Q) \/
  ((v < -1)%Q /\ Qclamp v = (-1)%Q) \/
  ((-1 <= v <= 1)%Q /\ Qclamp v = v).
Proof.
  unfold Qclamp. destruct (Qlt_bool 1 v) eqn:H1.
  - left. split; [now apply Qlt_bool_iff | reflexivity].
  - apply Qlt_bool_not in H1. destruct (Qlt_bool v (-1)) eqn:H2.
    + right. left. split; [now apply Qlt_bool_iff | reflexivity].
    + apply Qlt_bool_not in H2. right. right. repeat split; assumption.
Qed.

Lemma scaled_cases v :
  let c := Qclamp v in
  ((c < 0)%Q /\ scaled v = (c * 32768)%Q) \/ ((0 <= c)%Q /\ scaled v = (c * 32767)%Q).
Proof.
  intros c. unfold scaled. fold c. destruct (Qlt_bool c 0) eqn:H.
  - left. split; [now apply Qlt_bool_iff | reflexivity].
  - right. split; [now apply Qlt_bool_not | reflexivity].
Qed.

Lemma Qclamp_mono v1 v2 : (v1 <= v2)%Q -> (Qclamp v1 <= Qclamp v2)%Q.
Proof.
  intros H.
  destruct (Qclamp_cases v1) as [[A1 ->] | [[A1 ->] | [A1 ->]]];
    destruct (Qclamp_cases v2) as [[A2 ->] | [[A2 ->] | [A2 ->]]]; lra.
Qed.

Lemma scaled_mono v1 v2 : (v1 <= v2)%Q -> (scaled v1 <= scaled v2)%Q.
Proof.
  intros H. pose proof (Qclamp_mono v1 v2 H) as Hc.
  destruct (scaled_cases v1) as [[A1 ->] | [A1 ->]];
    destruct (scaled_cases v2) as [[A2 ->] | [A2 ->]]; lra.
Qed.

Lemma Qtrunc_cases q :
  ((0 <= q)%Q /\ Qtrunc q = Qfloor q) \/ ((q < 0)%Q /\ Qtrunc q = Qceiling q).
Proof.
  unfold Qtrunc. destruct (Qle_bool 0 q) eqn:H.
  - left. split; [now apply Qle_bool_iff | reflexivity].
  - right. split; [|reflexivity]. apply Qnot_le_lt. intros Hle.
    apply Qle_bool_iff in Hle. congruence.
Qed.

Lemma Qtrunc_mono q1 q2 : (q1 <= q2)%Q -> Qtrunc q1 <= Qtrunc q2.
Proof.
  intros H.
  destruct (Qtrunc_cases q1) as [[A1 ->] | [A1 ->]];
    destruct (Qtrunc_cases q2) as [[A2 ->] | [A2 ->]].
  - now apply Qfloor_resp_le.
  - lra.
  - assert (Qceiling q1 <= 0).
    { change 0 with (Qceiling 0). apply Qceiling_resp_le. lra. }
    assert (0 <= Qfloor q2).
    { change 0 with (Qfloor 0). now apply Qfloor_resp_le. }
    lia.
  - now apply Qceiling_resp_le.
Qed.

(** Truncation errs by less than one, toward zero. *)
Lemma Qtrunc_error q :
  (Qabs (q - inject_Z (Qtrunc q)) < 1)%Q /\ (Qabs (inject_Z (Qtrunc q)) <= Qabs q)%Q.
Proof.
  destruct (Qtrunc_cases q) as [[A ->] | [A ->]].
  - pose proof (Qfloor_le q) as Hl. pose proof (Qlt_floor q) as Hu.
    rewrite inject_Z_plus in Hu. change (inject_Z 1) with 1%Q in Hu.
    assert (H0 : (0 <= inject_Z (Qfloor q))%Q).
    { change (inject_Z 0 <= inject_Z (Qfloor q))%Q. rewrite <- Zle_Qle.
      change 0 with (Qfloor 0).
      now apply Qfloor_resp_le. }
    split.
    + apply Qabs_Qlt_condition. split; lra.
    + rewrite !Qabs_pos by lra. exact Hl.
  - pose proof (Qle_ceiling q) as Hl. pose proof (Qceiling_lt q) as Hu.
    unfold Z.sub in Hu. rewrite inject_Z_plus in Hu. change (inject_Z (- (1))) with (-1)%Q in Hu.
    assert (H0 : (inject_Z (Qceiling q) <= 0)%Q).
    { change (inject_Z (Qceiling q) <= inject_Z 0)%Q. rewrite <- Zle_Qle.
      change 0 with (Qceiling 0).
      apply Qceiling_resp_le. lra. }
    split.
    + apply Qabs_Qlt_condition. split; lra.
    + rewrite !Qabs_neg by lra. lra.
Qed.

Lemma clipped_high x :
  JS.is_float32 x -> is_finite x = true -> (1 <= JS.Qvalue x)%Q ->
  JS.ToInt16 (quantize x) = 32767.
Proof.
  intros Hx Hf Hv. destruct (quantize_exact x Hx Hf) as [Ht Hr].
  rewrite (sample_of_quantize x Hx Hf). rewrite Ht in Hr.
  pose proof (Qtrunc_mono _ _ (scaled_mono 1 (JS.Qvalue x) Hv)) as Hm.
  change (Qtrunc (scaled 1)) with 32767 in Hm. lia.
Qed.

Lemma clipped_low x :
  JS.is_float32 x -> is_finite x = true -> (JS.Qvalue x <= -1)%Q ->
  JS.ToInt16 (quantize x) = -32768.
Proof.
  intros Hx Hf Hv. destruct (quantize_exact x Hx Hf) as [Ht Hr].
  rewrite (sample_of_quantize x Hx Hf). rewrite Ht in Hr.
  pose proof (Qtrunc_mono _ _ (scaled_mono (JS.Qvalue x) (-1) Hv)) as Hm.
  change (Qtrunc (scaled (-1))) with (-32768) in Hm. lia.
Qed.

(** C3. In the container of any buffer, at any sample rate and in both
    copies: wherever the buffer holds 1.0 or any sample above 1 (1.5,
    1.25, +Infinity, ...), a decoder reads 32767; wherever it holds -1.0 or
    any sample below -1, a decoder reads -32768; wherever it holds 0.0 (of
    either sign), a decoder reads 0. So an out-of-range sample is stored as
    the boundary sample of its side is: the clamp comes before the
    scaling. *)
Theorem boundary_samples v buf sr :
  exists b,
    encoder v buf sr = Some b /\
    (forall i x, buf !! i = Some x -> JS.is_float32 x ->
       x = f32_one \/ above_range x -> sample16 b i = 32767) /\
    (forall i x, buf !! i = Some x -> JS.is_float32 x ->
       x = f32_minus_one \/ below_range x -> sample16 b i = -32768) /\
    (forall i x, buf !! i = Some x ->
       x = f32_zero \/ x = S754_zero true -> sample16 b i = 0) /\
    (forall i j x, buf !! i = Some x -> JS.is_float32 x -> above_range x ->
       buf !! j = Some f32_one -> sample16 b i = sample16 b j) /\
    (forall i j x, buf !! i = Some x -> JS.is_float32 x -> below_range x ->
       buf !! j = Some f32_minus_one -> sample16 b i = sample16 b j).
Proof.
  destruct (encoder v buf sr) as [b|] eqn:Hb; [|rewrite encoder_spec in Hb; discriminate].
  assert (Hhigh : forall i x, buf !! i = Some x -> JS.is_float32 x ->
            x = f32_one \/ above_range x -> sample16 b i = 32767).
  { intros i x Hx Hf H. rewrite (sample16_at _ _ _ _ _ _ Hx Hb).
    destruct H as [-> | [-> | [Hfin Hq]]]; [reflexivity | reflexivity |].
    apply clipped_high; try assumption. now apply Qlt_le_weak. }
  assert (Hlow : forall i x, buf !! i = Some x -> JS.is_float32 x ->
            x = f32_minus_one \/ below_range x -> sample16 b i = -32768).
  { intros i x Hx Hf H. rewrite (sample16_at _ _ _ _ _ _ Hx Hb).
    destruct H as [-> | [-> | [Hfin Hq]]]; [reflexivity | reflexivity |].
    apply clipped_low; try assumption. now apply Qlt_le_weak. }
  exists b. split; [reflexivity|]. split; [exact Hhigh|]. split; [exact Hlow|].
  split; [|split].
  - intros i x Hx H. rewrite (sample16_at _ _ _ _ _ _ Hx Hb).
    destruct H as [-> | ->]; reflexivity.
  - intros i j x Hx Hf H Hj.
    rewrite (Hhigh i x Hx Hf (or_intror H)).
    symmetry. apply (Hhigh j f32_one Hj); [reflexivity | now left].
  - intros i j x Hx Hf H Hj.
    rewrite (Hlow i x Hx Hf (or_intror H)).
    symmetry. apply (Hlow j f32_minus_one Hj); [reflexivity | now left].
Qed.

(** The buffer [1.0; -1.0; 0.0; 1.5]: a decoder reads 32767, -32768, 0 and,
    for 1.5, the value of 1.0 again. *)
Lemma boundary_samples_witness :
  exists b,
    encoder static [f32_one; f32_minus_one; f32_zero; f32_one_and_half] (JS.lit 44100) = Some b /\
    sample16 b 0 = 32767 /\ sample16 b 1 = -32768 /\ sample16 b 2 = 0 /\
    sample16 b 3 = 32767 /\ sample16 b 3 = sample16 b 0.
Proof.
  destruct (boundary_samples static
              [f32_one; f32_minus_one; f32_zero; f32_one_and_half] (JS.lit 44100))
    as (b & Hb & Hhigh & Hlow & Hzero & Hsame & _).
  assert (Habove : above_range f32_one_and_half)
    by (right; split; [reflexivity | vm_compute; reflexivity]).
  exists b. split; [exact Hb|].
  split; [apply (Hhigh 0%nat f32_one); [reflexivity | reflexivity | now left]|].
  split; [apply (Hlow 1%nat f32_minus_one); [reflexivity | reflexivity | now left]|].
  split; [apply (Hzero 2%nat f32_zero); [reflexivity | now left]|].
  split; [apply (Hhigh 3%nat f32_one_and_half); [reflexivity | reflexivity | now right]|].
  apply (Hsame 3%nat 0%nat f32_one_and_half); [reflexivity | reflexivity | exact Habove | reflexivity].
Defined.

(** X2. For a finite sample the stored 16-bit value differs from the
    clamped and scaled sample by less than one, and is never larger in
    magnitude: the sample loop rounds toward zero, so it never
    overshoots. *)
Theorem quantization_error x :
  JS.is_float32 x -> is_finite x = true ->
  (Qabs (scaled (JS.Qvalue x) - inject_Z (JS.ToInt16 (quantize x))) < 1)%Q /\
  (Qabs (inject_Z (JS.ToInt16 (quantize x))) <= Qabs (scaled (JS.Qvalue x)))%Q.
Proof.
  intros Hx Hf. rewrite (sample_of_quantize x Hx Hf). apply Qtrunc_error.
Qed.

Lemma quantization_error_witness :
  JS.is_float32 f32_quarter /\ is_finite f32_quarter = true /\
  (Qabs (scaled (JS.Qvalue f32_quarter) - inject_Z (JS.ToInt16 (quantize f32_quarter))) < 1)%Q /\
  (Qabs (inject_Z (JS.ToInt16 (quantize f32_quarter)))
   <= Qabs (scaled (JS.Qvalue f32_quarter)))%Q.
Proof.
  split; [reflexivity|]. split; [reflexivity|].
  exact (quantization_error f32_quarter eq_refl eq_refl).
Defined.

(** X3. The sample loop preserves order: of two finite samples, the larger
    one never gets the smaller 16-bit value, across the clamp and across the
    change of scale at zero. *)
Theorem quantization_monotone x y :
  JS.is_float32 x -> is_finite x = true -> JS.is_float32 y -> is_finite y = true ->
  (JS.Qvalue x <= JS.Qvalue y)%Q ->
  JS.ToInt16 (quantize x) <= JS.ToInt16 (quantize y).
Proof.
  intros Hx Hfx Hy Hfy H.
  rewrite (sample_of_quantize x Hx Hfx), (sample_of_quantize y Hy Hfy).
  apply Qtrunc_mono, scaled_mono, H.
Qed.

Lemma quantization_monotone_witness :
  JS.is_float32 f32_minus_one /\ is_finite f32_minus_one = true /\
  JS.is_float32 f32_quarter /\ is_finite f32_quarter = true /\
  (JS.Qvalue f32_minus_one <= JS.Qvalue f32_quarter)%Q /\
  JS.ToInt16 (quantize f32_minus_one) <= JS.ToInt16 (quantize f32_quarter).
Proof.
  assert (H : (JS.Qvalue f32_minus_one <= JS.Qvalue f32_quarter)%Q) by (vm_compute; discriminate).
  repeat (split; [reflexivity|]). split; [exact H|].
  exact (quantization_monotone f32_minus_one f32_quarter eq_refl eq_refl eq_refl eq_refl H).
Defined.

Lemma Qtrunc_below q (z : Z) : (q < inject_Z z)%Q -> (0 < z) -> Qtrunc q < z.
Proof.
  intros Hq Hz. destruct (Qtrunc_cases q) as [[A ->] | [A ->]].
  - rewrite Zlt_Qlt. apply Qle_lt_trans with q; [apply Qfloor_le | exact Hq].
  - assert (Qceiling q <= 0); [|lia].
    change 0 with (Qceiling 0). apply Qceiling_resp_le. lra.
Qed.

Lemma Qtrunc_above q (z : Z) : (inject_Z z < q)%Q -> (z < 0) -> z < Qtrunc q.
Proof.
  intros Hq Hz. destruct (Qtrunc_cases q) as [[A ->] | [A ->]].
  - assert (0 <= Qfloor q); [|lia].
    change 0 with (Qfloor 0). now apply Qfloor_resp_le.
  - rewrite Zlt_Qlt. apply Qlt_le_trans with q; [exact Hq | apply Qle_ceiling].
Qed.

(** X4. Full scale is reached exactly by clipping: a finite sample is stored
    as 32767 if and only if it is at least 1, and as -32768 if and only if
    it is at most -1. No sample strictly inside (-1, 1) reaches either
    end. *)
Theorem full_scale_iff x :
  JS.is_float32 x -> is_finite x = true ->
  (JS.ToInt16 (quantize x) = 32767 <-> (1 <= JS.Qvalue x)%Q) /\
  (JS.ToInt16 (quantize x) = -32768 <-> (JS.Qvalue x <= -1)%Q).
Proof.
  intros Hx Hf. destruct (quantize_exact x Hx Hf) as [Ht Hr].
  rewrite (sample_of_quantize x Hx Hf). rewrite Ht in Hr.
  set (v := JS.Qvalue x) in *. split; split.
  - intros He. apply Qnot_lt_le. intros Hv.
    assert (Qtrunc (scaled v) < 32767); [|lia].
    apply Qtrunc_below; [|lia]. change (inject_Z 32767) with 32767%Q.
    destruct (scaled_cases v) as [[A ->] | [A ->]];
      destruct (Qclamp_cases v) as [[B EB] | [[B EB] | [B EB]]]; rewrite EB in *; lra.
  - intros Hv. pose proof (Qtrunc_mono _ _ (scaled_mono 1 v Hv)) as Hm.
    change (Qtrunc (scaled 1)) with 32767 in Hm. lia.
  - intros He. apply Qnot_lt_le. intros Hv.
    assert (-32768 < Qtrunc (scaled v)); [|lia].
    apply Qtrunc_above; [|lia]. change (inject_Z (-32768)) with (-32768)%Q.
    destruct (scaled_cases v) as [[A ->] | [A ->]];
      destruct (Qclamp_cases v) as [[B EB] | [[B EB] | [B EB]]]; rewrite EB in *; lra.
  - intros Hv. pose proof (Qtrunc_mono _ _ (scaled_mono v (-1) Hv)) as Hm.
    change (Qtrunc (scaled (-1))) with (-32768) in Hm. lia.
Qed.

Lemma full_scale_iff_witness :
  JS.is_float32 f32_one_and_half /\ is_finite f32_one_and_half = true /\
  (JS.ToInt16 (quantize f32_one_and_half) = 32767 <-> (1 <= JS.Qvalue f32_one_and_half)%Q) /\
  (JS.ToInt16 (quantize f32_one_and_half) = -32768 <-> (JS.Qvalue f32_one_and_half <= -1)%Q).
Proof.
  split; [reflexivity|]. split; [reflexivity|].
  exact (full_scale_iff f32_one_and_half eq_refl eq_refl).
Defined.

End Rationals.

Section Bytes.

Lemma truncate_Qvalue x : JS.truncate x = Qtrunc (JS.Qvalue x).
Proof.
  destruct x as [s | s | | s m e]; try reflexivity.
  unfold JS.truncate, JS.Qvalue. destruct e as [|p|p].
  - rewrite Z.shiftl_0_r. change (2 ^ 0) with 1. rewrite Z.mul_1_r.
    unfold Qtrunc. destruct (Qle_bool 0 (inject_Z (cond_Zopp s (Z.pos m))));
      [now rewrite Qfloor_Z | now rewrite Qceiling_Z].
  - rewrite Z.shiftl_mul_pow2 by lia.
    replace (cond_Zopp s (Z.pos m * 2 ^ Z.pos p)) with (cond_Zopp s (Z.pos m) * 2 ^ Z.pos p)
      by (destruct s; cbn [cond_Zopp]; ring).
    unfold Qtrunc. destruct (Qle_bool 0 (inject_Z (cond_Zopp s (Z.pos m) * 2 ^ Z.pos p)));
      [now rewrite Qfloor_Z | now rewrite Qceiling_Z].
  - change (Z.shiftl (Z.pos m) (Z.neg p)) with (Z.shiftr (Z.pos m) (Z.pos p)).
    rewrite Z.shiftr_div_pow2 by lia.
    unfold Qtrunc, Qle_bool, Qceiling, Qfloor, Qopp. cbn [Qnum Qden].
    rewrite Pos2Z.inj_pow. destruct s; cbn [cond_Zopp].
    + destruct (Z.leb_spec (0 * 2 ^ Z.pos p) (- Z.pos m * 1)); [lia|].
      rewrite Z.opp_involutive. reflexivity.
    + destruct (Z.leb_spec (0 * 2 ^ Z.pos p) (Z.pos m * 1)); [reflexivity|lia].
Qed.

(** X5. The sample rate is not checked: the encoder succeeds for every
    number, and a decoder reads as SampleRate the integer part of a finite
    rate, reduced modulo 2^32 (a fractional rate loses its fraction, a
    negative one wraps); for NaN and the infinities SampleRate and ByteRate
    are both 0. *)
Theorem sample_rate_truncated v buf sr :
  exists b,
    encoder v buf sr = Some b /\
    sampleRateField (parse_header (blob_bytes b))
    = (if is_finite sr then Qtrunc (JS.Qvalue sr) mod 2 ^ 32 else 0) /\
    byteRate (parse_header (blob_bytes b))
    = (if is_finite sr then JS.ToUint32 (JS.mul sr (num 2)) else 0).
Proof.
  eexists. split; [apply encoder_spec|]. cbn [blob_bytes].
  rewrite parse_wav_header. cbn [sampleRateField byteRate].
  destruct (is_finite sr) eqn:Hf.
  - split; [|reflexivity]. unfold JS.ToUint32, JS.wrapU. now rewrite truncate_Qvalue.
  - destruct sr as [s | s | | s m e]; try discriminate; split; reflexivity.
Qed.

Lemma le_bytes_are_bytes n : forall z, Forall is_byte (Buf.le_bytes n z).
Proof.
  induction n as [|n IH]; intros z; cbn [Buf.le_bytes]; constructor; [|apply IH].
  unfold is_byte. apply Z.mod_pos_bound. lia.
Qed.

Lemma charCodes_are_bytes s : Forall is_byte (Buf.charCodes s).
Proof.
  unfold Buf.charCodes. apply Forall_fmap, Forall_forall. intros c _.
  pose proof (nat_ascii_bounded c). unfold is_byte. simpl. lia.
Qed.

Lemma wav_data_bytes buf : Forall is_byte (wav_data buf).
Proof.
  unfold wav_data. induction buf as [|x xs IH]; cbn [flat_map]; [constructor|].
  apply Forall_app. split; [apply le_bytes_are_bytes | exact IH].
Qed.

(** X6. Every element of the container is a byte: whatever the samples and
    the sample rate (NaN, infinities, negative or huge numbers included),
    each element of the view lies in 0..255. *)
Theorem container_bytes v buf sr :
  exists b, encoder v buf sr = Some b /\ Forall is_byte (blob_bytes b).
Proof.
  eexists. split; [apply encoder_spec|]. cbn [blob_bytes]. unfold wav_header.
  repeat (apply Forall_app; split);
    first [apply le_bytes_are_bytes | apply charCodes_are_bytes | apply wav_data_bytes].
Qed.

Lemma map_seq_lookup {A B} (f : nat -> B) (g : A -> B) (l : list A) :
  (forall i x, l !! i = Some x -> f i = g x) ->
  map f (seq 0 (length l)) = map g l.
Proof.
  intros H. apply list_eq. intros i. rewrite !list_lookup_fmap.
  destruct (l !! i) as [x|] eqn:E.
  - rewrite lookup_seq_lt by (apply lookup_lt_Some in E; exact E).
    cbn. f_equal. now apply H.
  - rewrite lookup_seq_ge by (apply lookup_ge_None in E; exact E). reflexivity.
Qed.

(** X7. A decoder that takes the number of samples from the byte length of
    the container reads back one 16-bit value per sample of the buffer, in
    the order of the buffer: the list of the values the sample loop
    computed, nothing dropped and nothing added. *)
Theorem decode_encode v buf sr :
  exists b,
    encoder v buf sr = Some b /\
    decode_samples b = map (fun x => JS.ToInt16 (quantize x)) buf.
Proof.
  destruct (encoder v buf sr) as [b|] eqn:Hb; [|rewrite encoder_spec in Hb; discriminate].
  exists b. split; [reflexivity|]. unfold decode_samples.
  rewrite (encoder_bytes _ _ _ _ Hb), length_container.
  replace ((44 + length buf * 2 - 44) / 2)%nat with (length buf)
    by (rewrite Nat.add_comm, Nat.add_sub, Nat.div_mul; lia).
  apply map_seq_lookup. intros i x Hx. exact (sample16_at v buf sr i x b Hx Hb).
Qed.

(** *** What each argument of the encoder reaches *)

Lemma wav_header_rate L sr :
  wav_header L sr
  = take 24 (wav_header L (S754_zero false))
    ++ (Buf.le_bytes 4 (JS.ToUint32 sr) ++ Buf.le_bytes 4 (JS.ToUint32 (JS.mul sr (num 2))))
    ++ drop 32 (wav_header L (S754_zero false)).
Proof.
  unfold wav_header.
  set (f4 := Buf.le_bytes 4 (JS.ToUint32 (num (36 + L * 2)))).
  set (f40 := Buf.le_bytes 4 (JS.ToUint32 (num (L * 2)))).
  assert (H4 : length f4 = 4%nat) by apply length_le_bytes.
  destruct f4 as [|a0 [|a1 [|a2 [|a3 [|]]]]]; try discriminate.
  reflexivity.
Qed.

(** X8. The sample rate reaches bytes 24 to 31 only: two containers of the
    same buffer at different rates agree on their first 24 bytes and on all
    bytes from 32 on, the samples included. *)
Theorem rate_fields_only v buf sr1 sr2 :
  exists b1 b2,
    encoder v buf sr1 = Some b1 /\ encoder v buf sr2 = Some b2 /\
    take 24 (blob_bytes b1) = take 24 (blob_bytes b2) /\
    drop 32 (blob_bytes b1) = drop 32 (blob_bytes b2).
Proof.
  do 2 eexists. split; [apply encoder_spec|]. split; [apply encoder_spec|]. cbn [blob_bytes].
  rewrite (wav_header_rate _ sr1), (wav_header_rate _ sr2).
  set (pre := take 24 (wav_header (length buf) (S754_zero false))).
  set (post := drop 32 (wav_header (length buf) (S754_zero false))).
  assert (Hpre : length pre = 24%nat)
    by (unfold pre; rewrite length_take, length_wav_header; reflexivity).
  split.
  - rewrite <- !app_assoc. rewrite !take_app_length' by exact Hpre. reflexivity.
  - rewrite <- !app_assoc. change 32%nat with (24 + (4 + 4))%nat.
    rewrite !(drop_app_add' pre) by (now rewrite Hpre).
    rewrite !(drop_app_add' (Buf.le_bytes 4 _)) by (now rewrite length_le_bytes).
    rewrite !(drop_app_length' (Buf.le_bytes 4 _)) by (now rewrite length_le_bytes).
    reflexivity.
Qed.

Lemma wav_data_app a b : wav_data (a ++ b) = wav_data a ++ wav_data b.
Proof. unfold wav_data. apply flat_map_app. Qed.

(** X9. Encoding distributes over concatenation: the data chunk of the
    container of [a ++ b] is the data chunk of the container of [a] followed
    by that of [b]; a sample is encoded the same wherever it stands and
    whatever surrounds it. *)
Theorem data_of_concatenation v a b sr :
  exists ba bb bab,
    encoder v a sr = Some ba /\ encoder v b sr = Some bb /\
    encoder v (a ++ b) sr = Some bab /\
    drop 44 (blob_bytes bab) = drop 44 (blob_bytes ba) ++ drop 44 (blob_bytes bb).
Proof.
  do 3 eexists. repeat (split; [apply encoder_spec|]). cbn [blob_bytes].
  rewrite !drop_app_length' by (now rewrite length_wav_header).
  apply wav_data_app.
Qed.

(** *** [writeString] and [set] on a view that is not fresh *)

Lemma store_splice {A} off (src dst : list A) :
  (off + length src <= length dst)%nat ->
  list_inserts off src dst = take off dst ++ src ++ drop (off + length src) dst.
Proof.
  intros H.
  rewrite <- (take_drop off dst) at 1.
  rewrite <- (take_drop (length src) (drop off dst)) at 1.
  assert (Hl : length (take off dst) = off) by (rewrite length_take; lia).
  replace off with (length (take off dst) + 0)%nat at 1 by lia.
  rewrite list_inserts_app_r.
  rewrite list_inserts_0_r by (rewrite length_take, length_drop; lia).
  rewrite drop_drop. reflexivity.
Qed.

Lemma writeStringFrom_spec string : forall i offset view,
  Forall is_code_unit string ->
  writeStringFrom i offset string view
  = if decide (string = [] \/ (offset + i + length string <= length view)%nat)
    then Some (list_inserts (offset + i) (map (fun c => c mod 256) string) view)
    else None.
Proof.
  induction string as [|c cs IH]; intros i offset view Hu.
  - cbn [writeStringFrom map list_inserts]. rewrite decide_True by (now left). reflexivity.
  - apply Forall_cons in Hu as [Hc Hcs].
    cbn [writeStringFrom map list_inserts length]. unfold Buf.seq, Buf.setUint8, Buf.store.
    rewrite (char_byte c Hc). cbn [length list_inserts].
    destruct (decide (offset + i + 1 <= length view)%nat) as [Hv|Hv].
    + cbn. rewrite (IH _ _ _ Hcs). rewrite length_insert.
      replace (offset + S i)%nat with (S (offset + i)) by lia.
      destruct cs as [|c' cs].
      * rewrite decide_True by (now left). rewrite decide_True by (right; cbn; lia).
        reflexivity.
      * rewrite list_insert_inserts_lt by lia.
        destruct (decide (c' :: cs = [] \/ (S (offset + i) + length (c' :: cs) <= length view)%nat))
          as [[Hn|Hl]|Hl]; [discriminate | |].
        -- rewrite decide_True by (right; cbn [length] in *; lia). reflexivity.
        -- rewrite decide_False; [reflexivity|].
           intros [Hn|Hl']; [discriminate|]. apply Hl. right. cbn [length] in *. lia.
    + cbn. rewrite decide_False; [reflexivity|]. intros [Hn|Hl]; [discriminate|]. lia.
Qed.

(** X10. [writeString] on any view, fresh or not, and any string: when the
    string is empty or fits between [offset] and the end of the view, the
    low byte of each code unit ([charCodeAt(i)] modulo 256, so a code unit
    above 255 is not stored as it is) replaces the byte at [offset + i] and
    every other byte stays; when a non-empty string does not fit,
    [setUint8] raises a RangeError. *)
Theorem writeString_spec offset string view :
  Forall is_code_unit string ->
  writeString offset string view
  = if decide (string = [] \/ (offset + length string <= length view)%nat)
    then Some (take offset view ++ map (fun c => c mod 256) string
               ++ drop (offset + length string) view)
    else None.
Proof.
  intros Hu. unfold writeString. rewrite (writeStringFrom_spec _ _ _ _ Hu).
  rewrite Nat.add_0_r. destruct string as [|c cs].
  - cbn [map list_inserts length].
    rewrite !decide_True by (now left). rewrite Nat.add_0_r. cbn [app].
    now rewrite take_drop.
  - destruct (decide (c :: cs = [] \/ (offset + length (c :: cs) <= length view)%nat))
      as [[Hn|H]|H]; [discriminate | | reflexivity].
    f_equal. rewrite store_splice by (rewrite length_map; exact H).
    rewrite length_map. reflexivity.
Qed.

(** The string of the euro sign and A at offset 1 of a view of four bytes:
    8364 is stored as 172. *)
Lemma writeString_spec_witness :
  Forall is_code_unit euro_A /\
  writeString 1 euro_A [1; 2; 3; 4]
  = if decide (euro_A = [] \/ (1 + length euro_A <= length [1; 2; 3; 4])%nat)
    then Some (take 1 [1; 2; 3; 4] ++ map (fun c => c mod 256) euro_A
               ++ drop (1 + length euro_A) [1; 2; 3; 4])
    else None.
Proof.
  assert (H : Forall is_code_unit euro_A)
    by (repeat constructor; unfold is_code_unit; lia).
  split; [exact H | exact (writeString_spec 1 euro_A [1; 2; 3; 4] H)].
Defined.

End Bytes.

(** ** The page as a whole *)

Section Page.

Ltac hstep :=
  repeat progress
    (unfold mbind, mret, handler_bind, handler_ret, get, return_, throw, alert, emit,
       lift, set_recordedBlob, set_currentRecording, clear_audioFiles, try_catch_finally,
       run, await_fetch, Revised.await_text, Revised.await_blob, Static.await_json,
       set_recorder, set_uploadAudioHidden, choose_audioFiles, choose_imageFiles,
       choose_extractImageFiles, slide_nFft, slide_hopLength,
       await_getUserMedia, new_AudioContext;
     cbn beta iota zeta;
     cbn [fst snd currentRecording recorder recordedBlob uploadAudioHidden audioFiles
          imageFiles extractImageFiles nFftValue hopLengthValue log append_log negb]).

(** The same steps by plain evaluation, for a page given field by field. *)
Ltac hrun :=
  cbv beta iota zeta delta
    [mbind mret handler_bind handler_ret get return_ throw alert emit
     lift set_recordedBlob set_currentRecording clear_audioFiles try_catch_finally
     run await_fetch Revised.await_text Revised.await_blob Static.await_json
     Static.await_template set_recorder set_uploadAudioHidden choose_audioFiles choose_imageFiles
     choose_extractImageFiles slide_nFft slide_hopLength
     await_getUserMedia new_AudioContext
     fst snd currentRecording recorder recordedBlob uploadAudioHidden audioFiles
     imageFiles extractImageFiles nFftValue hopLengthValue log append_log negb].

Lemma perform_all_app v l1 l2 w :
  perform_all v (l1 ++ l2) w = perform_all v l2 (perform_all v l1 w).
Proof. unfold perform_all. apply foldl_app. Qed.

Lemma nodes_app es1 es2 : nodes (es1 ++ es2) = (nodes es1 + nodes es2)%nat.
Proof. unfold nodes. now rewrite List.filter_app, length_app. Qed.

Lemma start_ok v dev tracks sr w :
  getUserMedia dev = inr tracks -> newAudioContext dev = inr sr ->
  exists es,
    nodes es = 1%nat /\
    start_handler v dev w =
    (Normal tt,
     {| currentRecording := Some {| stream := tracks; audioChunks := []; sampleRate := sr |};
        recorder := true;
        recordedBlob := recordedBlob w; uploadAudioHidden := uploadAudioHidden w;
        audioFiles := audioFiles w; imageFiles := imageFiles w;
        extractImageFiles := extractImageFiles w; nFftValue := nFftValue w;
        hopLengthValue := hopLengthValue w; log := log w ++ es |}).
Proof.
  intros Hm Hc. destruct w as [cr rc rb hidden afs ifs efs nf hl lg].
  destruct v; cbn [start_handler];
    unfold StaticPage.start_click, RevisedPage.start_click; hrun;
    rewrite Hm; hrun; rewrite Hc; hrun; rewrite <- ?app_assoc; cbn [app];
    eexists; (split; [|reflexivity]); reflexivity.
Qed.

Lemma start_failed v dev message w :
  getUserMedia dev = inl message \/
  (exists tracks, getUserMedia dev = inr tracks) /\ newAudioContext dev = inl message ->
  start_handler v dev w
  = (Normal tt,
     append_log w
       [Alert ((match v with
                | static => "❌ Could not access microphone: "
                | revised => "Error accessing mic: "
                end) +:+ message)]).
Proof.
  destruct w as [cr rc rb hidden afs ifs efs nf hl lg].
  intros [Hm | [[tracks Hm] Hc]]; destruct v; cbn [start_handler];
    unfold StaticPage.start_click, RevisedPage.start_click; hrun;
    rewrite Hm; hrun; rewrite ?Hc; hrun; reflexivity.
Qed.

Lemma blocks_of_cons node k b cs :
  blocks_of node ((k, b) :: cs)
  = if Nat.eqb k node then b :: blocks_of node cs else blocks_of node cs.
Proof. unfold blocks_of. cbn. destruct (Nat.eqb k node); reflexivity. Qed.

Lemma audio_process_blocks v node calls :
  forall tracks chunks sr rc rb hidden afs ifs efs nf hl lg,
  nodes lg = S node ->
  perform_all v (callbacks calls)
    {| currentRecording := Some {| stream := tracks; audioChunks := chunks; sampleRate := sr |};
       recorder := rc; recordedBlob := rb; uploadAudioHidden := hidden;
       audioFiles := afs; imageFiles := ifs; extractImageFiles := efs;
       nFftValue := nf; hopLengthValue := hl; log := lg |}
  = {| currentRecording :=
         Some {| stream := tracks; audioChunks := chunks ++ blocks_of node calls;
                 sampleRate := sr |};
       recorder := rc; recordedBlob := rb; uploadAudioHidden := hidden;
       audioFiles := afs; imageFiles := ifs; extractImageFiles := efs;
       nFftValue := nf; hopLengthValue := hl; log := lg |}.
Proof.
  induction calls as [|[k b] cs IH]; intros * Hn.
  - cbn. now rewrite app_nil_r.
  - unfold callbacks. cbn [map fst snd]. fold (callbacks cs).
    change (perform_all v (?a :: ?l) ?w)
      with (perform_all v l (run (perform v a) w)).
    cbn [perform]. unfold audio_process. hstep. cbn [stream audioChunks sampleRate].
    rewrite Hn, blocks_of_cons. cbn [Nat.eqb].
    destruct (Nat.eqb k node) eqn:E; hstep.
    + rewrite (IH _ _ _ _ _ _ _ _ _ _ _ _ Hn). rewrite <- app_assoc. reflexivity.
    + apply (IH _ _ _ _ _ _ _ _ _ _ _ _ Hn).
Qed.

Lemma audio_process_idle v late : forall w,
  currentRecording w = None -> perform_all v (callbacks late) w = w.
Proof.
  induction late as [|[k b] bs IH]; intros w Hw; [reflexivity|].
  unfold callbacks. cbn [map fst snd]. fold (callbacks bs).
  change (perform_all v (?a :: ?l) ?w0)
    with (perform_all v l (run (perform v a) w0)).
  cbn [perform]. unfold audio_process. hstep. rewrite Hw. hstep. now apply IH.
Qed.

(** The stop handler on a page that holds a session and its nodes. *)
Lemma stop_ok v w r :
  currentRecording w = Some r -> recorder w = true ->
  exists es,
    stop_handler v w =
    (Normal tt,
     {| currentRecording := None; recorder := true;
        recordedBlob := Some (recorded r); uploadAudioHidden := uploadAudioHidden w;
        audioFiles := []; imageFiles := imageFiles w;
        extractImageFiles := extractImageFiles w; nFftValue := nFftValue w;
        hopLengthValue := hopLengthValue w;
        log := log w ++ [Disconnect "recorder"; Disconnect "mediaStreamSource"]
               ++ map TrackStop (stream r) ++ CreateObjectURL (recorded r) :: es |}).
Proof.
  intros H Hr. destruct v; cbn [stop_handler].
  - rewrite (static_stop w r H), Hr. eexists. reflexivity.
  - rewrite (revised_stop w r H Hr). eexists. reflexivity.
Qed.

Lemma submit_frame v s env w :
  exists c es,
    submit_handler v s env w = (c, append_log w (es ++ [hide_spinner])) /\
    (c = Normal tt \/ c = Return) /\
    (length (fetches es) <= 1)%nat.
Proof.
  destruct w as [cr rc rb hidden afs ifs efs nf hl lg].
  destruct v, s; cbn [submit_handler];
    unfold Static.embed_click, Static.extract_click, Revised.embed_click,
      Revised.extract_click, Static.detail_or; hrun.
  all: repeat first
    [ progress hrun
    | match goal with
      | |- context [match ?x with _ => _ end] =>
          match x with
          | fetch _ _ _ => destruct x eqn:?
          | ok _ => destruct x eqn:?
          | json _ => destruct x eqn:?
          | Static.field _ _ => destruct x eqn:?
          | Static.truthy _ => destruct x eqn:?
          | Static.ToString _ => destruct x eqn:?
          | embedTemplate _ _ => destruct x eqn:?
          | extractTemplate _ _ => destruct x eqn:?
          | _ => is_var x; destruct x
          end
      | |- context [if ?x then _ else _] =>
          match x with
          | ok _ => destruct x eqn:?
          | Static.truthy _ => destruct x eqn:?
          | _ => is_var x; destruct x
          end
      end ].
  all: rewrite <- ?app_assoc; cbn [app].
  all: match goal with
       | |- exists c es, (?c0, Build_World _ _ _ _ _ _ _ _ _ (_ ++ ?l)) = _ /\ _ =>
           let es0 := eval cbn [removelast] in (removelast l) in
           exists c0, es0; split; [reflexivity|];
             split; [first [left; reflexivity | right; reflexivity] | cbn; lia]
       end.
Qed.

Lemma submit_request v s env w endpoint form :
  request s w = Some (endpoint, form) ->
  exists c es,
    submit_handler v s env w
    = (c, append_log w (show_spinner :: Fetch endpoint form :: es ++ [hide_spinner])) /\
    (c = Normal tt \/ c = Return) /\ fetches es = [].
Proof.
  intros Hreq. destruct w as [cr rc rb hidden afs ifs efs nf hl lg].
  destruct s; cbn [request] in Hreq; cbn [uploadAudioHidden recordedBlob audioFiles
    imageFiles extractImageFiles nFftValue hopLengthValue] in Hreq.
  - destruct hidden; [destruct rb | destruct afs]; try discriminate;
      (destruct ifs; [discriminate|]); cbn in Hreq; injection Hreq as <- <-;
      destruct v; cbn [submit_handler];
      unfold Static.embed_click, Revised.embed_click, Static.detail_or; hrun.
    all: repeat first
      [ progress hrun
      | match goal with
        | |- context [match ?x with _ => _ end] =>
            match x with
            | fetch _ _ _ => destruct x eqn:?
            | json _ => destruct x eqn:?
            | Static.field _ _ => destruct x eqn:?
            | Static.ToString _ => destruct x eqn:?
            | embedTemplate _ _ => destruct x eqn:?
            | extractTemplate _ _ => destruct x eqn:?
            | _ => is_var x; destruct x
            end
        | |- context [if ?x then _ else _] =>
            match x with
            | ok _ => destruct x eqn:?
            | Static.truthy _ => destruct x eqn:?
            end
        end ].
    all: rewrite <- ?app_assoc; cbn [app].
    all: match goal with
         | |- exists c es, (?c0, Build_World _ _ _ _ _ _ _ _ _ (_ ++ _ :: _ :: ?l)) = _ /\ _ =>
             let es0 := eval cbn [removelast] in (removelast l) in
             exists c0, es0; split; [reflexivity|];
               split; [first [left; reflexivity | right; reflexivity] | reflexivity]
         end.
  - destruct efs; [discriminate|]. cbn in Hreq; injection Hreq as <- <-.
    destruct v; cbn [submit_handler];
      unfold Static.extract_click, Revised.extract_click, Static.detail_or; hrun.
    all: repeat first
      [ progress hrun
      | match goal with
        | |- context [match ?x with _ => _ end] =>
            match x with
            | fetch _ _ _ => destruct x eqn:?
            | json _ => destruct x eqn:?
            | Static.field _ _ => destruct x eqn:?
            | Static.ToString _ => destruct x eqn:?
            | embedTemplate _ _ => destruct x eqn:?
            | extractTemplate _ _ => destruct x eqn:?
            | _ => is_var x; destruct x
            end
        | |- context [if ?x then _ else _] =>
            match x with
            | ok _ => destruct x eqn:?
            | Static.truthy _ => destruct x eqn:?
            end
        end ].
    all: rewrite <- ?app_assoc; cbn [app].
    all: match goal with
         | |- exists c es, (?c0, Build_World _ _ _ _ _ _ _ _ _ (_ ++ _ :: _ :: ?l)) = _ /\ _ =>
             let es0 := eval cbn [removelast] in (removelast l) in
             exists c0, es0; split; [reflexivity|];
               split; [first [left; reflexivity | right; reflexivity] | reflexivity]
         end.
Qed.

Lemma loaded_consistent w : loaded w -> consistent w.
Proof.
  intros (Hc & Hr & Hb). split; [intros H; now destruct H|]. split; now left.
Qed.

(** One action on a consistent page: the handler settles (no exception
    escapes it) and the page stays consistent. *)
Lemma perform_spec v a w :
  consistent w ->
  exists c w', perform v a w = (c, w') /\ (c = Normal tt \/ c = Return) /\ consistent w'.
Proof.
  intros Hw. pose proof Hw as (Hrec & Hblob & Hone). destruct a; cbn [perform].
  - destruct (getUserMedia dev) as [msg|tracks] eqn:Hm;
      [|destruct (newAudioContext dev) as [msg|sr] eqn:Hc].
    + rewrite (start_failed v dev msg w) by (now left).
      do 2 eexists. split; [reflexivity|]. split; [now left | exact Hw].
    + rewrite (start_failed v dev msg w) by (right; split; [now exists tracks | exact Hc]).
      do 2 eexists. split; [reflexivity|]. split; [now left | exact Hw].
    + destruct (start_ok v dev tracks sr w Hm Hc) as (es & _ & ->).
      do 2 eexists. split; [reflexivity|]. split; [now left|].
      split; [intros _; reflexivity|]. split; [exact Hblob | exact Hone].
  - unfold audio_process. hstep.
    destruct (currentRecording w) as [r|] eqn:Hr; hstep;
      [destruct (Nat.eqb (S node) (nodes (log w))); hstep|].
    + do 2 eexists. split; [reflexivity|]. split; [now left|].
      split; [intros _; apply Hrec; discriminate|]. split; [exact Hblob | exact Hone].
    + do 2 eexists. split; [reflexivity|]. split; [now left | exact Hw].
    + do 2 eexists. split; [reflexivity|]. split; [now left | exact Hw].
  - destruct (currentRecording w) as [r|] eqn:Hr.
    + destruct (stop_ok v w r Hr (Hrec ltac:(discriminate))) as [es ->].
      do 2 eexists. split; [reflexivity|]. split; [now left|].
      split; [intros H; now destruct H|]. split; [right; now exists r | now right].
    + rewrite (stop_without_session v w Hr).
      do 2 eexists. split; [reflexivity|]. split; [now right | exact Hw].
  - unfold audio_change. hstep. destruct files as [|f fs]; hstep;
      (do 2 eexists; split; [reflexivity|]; split; [now left|]).
    + split; [exact Hrec|]. split; [exact Hblob | now right].
    + split; [exact Hrec|]. split; now left.
  - unfold image_change. hstep. destruct files as [|f fs]; hstep;
      (do 2 eexists; split; [reflexivity|]; split; [now left | exact Hw]).
  - unfold extract_image_change. hstep. destruct files as [|f fs]; hstep;
      (do 2 eexists; split; [reflexivity|]; split; [now left | exact Hw]).
  - unfold input_type_click. hstep. destruct (String.eqb type "upload"); hstep;
      (do 2 eexists; split; [reflexivity|]; split; [now left | exact Hw]).
  - unfold nFft_input. hstep.
    do 2 eexists. split; [reflexivity|]. split; [now left | exact Hw].
  - unfold hopLength_input. hstep.
    do 2 eexists. split; [reflexivity|]. split; [now left | exact Hw].
  - destruct (submit_frame v s env w) as (c & es & -> & Hc & _).
    do 2 eexists. split; [reflexivity|]. split; [exact Hc | exact Hw].
Qed.

Lemma reachable_consistent v actions : forall w,
  consistent w -> consistent (perform_all v actions w).
Proof.
  induction actions as [|a l IH]; intros w Hw; [exact Hw|].
  change (perform_all v (a :: l) w) with (perform_all v l (run (perform v a) w)).
  apply IH. destruct (perform_spec v a w Hw) as (c & w' & E & _ & Hw').
  unfold run. now rewrite E.
Qed.

Lemma fetches_app l1 l2 : fetches (l1 ++ l2) = fetches l1 ++ fetches l2.
Proof. apply omap_app. Qed.

Lemma fetches_request endpoint form es :
  fetches (show_spinner :: Fetch endpoint form :: es ++ [hide_spinner])
  = (endpoint, form) :: fetches es.
Proof.
  change (fetches ([show_spinner; Fetch endpoint form] ++ es ++ [hide_spinner])
          = [(endpoint, form)] ++ fetches es).
  rewrite !fetches_app. cbn. now rewrite app_nil_r.
Qed.

(** X11. When the microphone is refused, or the audio context cannot be
    built after the microphone was granted, the start handler of either copy
    catches the error: it finishes normally, its only effect is one alert
    that carries the error's message, and the page holds what it held (no
    session is created, the nodes and the stored blob are as before; the
    tracks of a granted stream are not stopped). *)
Theorem start_failure v dev message w :
  getUserMedia dev = inl message \/
  (exists tracks, getUserMedia dev = inr tracks) /\ newAudioContext dev = inl message ->
  start_handler v dev w
  = (Normal tt,
     append_log w
       [Alert ((match v with
                | static => "❌ Could not access microphone: "
                | revised => "Error accessing mic: "
                end) +:+ message)]).
Proof. apply start_failed. Qed.

Lemma start_failure_witness :
  (getUserMedia denied = inl "Permission denied" \/
   (exists tracks, getUserMedia denied = inr tracks) /\
   newAudioContext denied = inl "Permission denied") /\
  start_handler revised denied idle
  = (Normal tt, append_log idle [Alert ("Error accessing mic: " +:+ "Permission denied")]).
Proof.
  assert (H : getUserMedia denied = inl "Permission denied" \/
              (exists tracks, getUserMedia denied = inr tracks) /\
              newAudioContext denied = inl "Permission denied") by (left; reflexivity).
  split; [exact H|].
  exact (start_failure revised denied "Permission denied" idle H).
Defined.

(** X12. A whole session, from any page, whatever earlier recorders are
    still alive: a start that is granted, then callbacks of any nodes in any
    order, a stop, and late callbacks. The stop stores the container of the
    blocks that the node of this start delivered before the stop, in the
    order of their delivery and at the sample rate of the audio context;
    the blocks of other nodes are not recorded. The stop stops every track
    of the stream, ends the session and empties the file selection, and
    callbacks after the stop change nothing. *)
Theorem session_records_blocks v dev tracks sr calls late w :
  getUserMedia dev = inr tracks -> newAudioContext dev = inr sr ->
  let recorded_blocks := blocks_of (nodes (log w)) calls in
  let w' := perform_all v
              (StartClick dev :: callbacks calls ++ StopClick :: callbacks late) w in
  recordedBlob w'
  = Some {| blob_bytes := wav_header (length (concat recorded_blocks)) sr
                          ++ wav_data (concat recorded_blocks);
            blob_type := "audio/wav" |} /\
  currentRecording w' = None /\ audioFiles w' = [] /\
  Forall (fun t => TrackStop t ∈ log w') tracks.
Proof.
  intros Hm Hc blocks w'. subst blocks w'.
  change (perform_all v (?a :: ?l) ?w0) with (perform_all v l (run (perform v a) w0)).
  cbn [perform]. unfold run. destruct (start_ok v dev tracks sr w Hm Hc) as (es & Hes & ->).
  cbn [snd]. rewrite perform_all_app.
  rewrite (audio_process_blocks v (nodes (log w)))
    by (rewrite nodes_app, Hes; lia).
  cbn [app].
  change (perform_all v (?a :: ?l) ?w0) with (perform_all v l (run (perform v a) w0)).
  cbn [perform]. unfold run.
  match goal with
  | |- context [stop_handler v ?w0] =>
      destruct (stop_ok v w0 _ eq_refl eq_refl) as [es' ->]
  end.
  cbn [snd]. rewrite audio_process_idle by reflexivity.
  cbn [recordedBlob currentRecording audioFiles log stream]. unfold recorded.
  cbn [audioChunks sampleRate]. repeat split.
  apply Forall_forall. intros t Ht.
  rewrite !elem_of_app. right. right. left. now apply list_elem_of_fmap_2.
Qed.

(** A second start while the node of the first is alive: the block the
    first node delivers in between is not recorded. *)
Lemma session_records_blocks_witness :
  getUserMedia microphone = inr [0%nat] /\ newAudioContext microphone = inr (JS.lit 48000) /\
  let recorded_blocks := blocks_of (nodes (log restarted)) interleaved in
  let w' := perform_all static
              (StartClick microphone :: callbacks interleaved ++
               StopClick :: callbacks [(1%nat, [f32_minus_one])]) restarted in
  recordedBlob w'
  = Some {| blob_bytes := wav_header (length (concat recorded_blocks)) (JS.lit 48000)
                          ++ wav_data (concat recorded_blocks);
            blob_type := "audio/wav" |} /\
  currentRecording w' = None /\ audioFiles w' = [] /\
  Forall (fun t => TrackStop t ∈ log w') [0%nat].
Proof.
  split; [reflexivity|]. split; [reflexivity|].
  exact (session_records_blocks static microphone [0%nat] (JS.lit 48000)
           interleaved [(1%nat, [f32_minus_one])] restarted eq_refl eq_refl).
Defined.

(** X13. On a page reached from the script's load by any sequence of
    actions (starts, audio callbacks of any node, stops, file choices,
    input-type clicks, slider moves, submissions against any service, also
    one whose success answer makes the result template of static/script.js
    throw), no handler of either copy ends in an uncaught exception; in
    particular the stop handler of the revised script, which disconnects
    the nodes without a guard, always finds them. *)
Theorem no_uncaught_exception v actions a w0 :
  loaded w0 ->
  exists c w', perform v a (perform_all v actions w0) = (c, w') /\
               (c = Normal tt \/ c = Return).
Proof.
  intros H0.
  destruct (perform_spec v a (perform_all v actions w0)
              (reachable_consistent v actions w0 (loaded_consistent w0 H0)))
    as (c & w' & E & Hc & _).
  now exists c, w'.
Qed.

Lemma no_uncaught_exception_witness :
  loaded idle /\
  exists c w',
    perform revised StopClick
      (perform_all revised [StartClick microphone; AudioProcess 0 [f32_quarter]] idle) = (c, w') /\
    (c = Normal tt \/ c = Return).
Proof.
  assert (H : loaded idle) by (repeat split).
  split; [exact H|].
  exact (no_uncaught_exception revised [StartClick microphone; AudioProcess 0 [f32_quarter]]
           StopClick idle H).
Defined.

(** X14. On a page reached from the script's load, a stored recording and a
    chosen audio file never coexist: the stop handler empties the file
    selection when it stores the blob, and choosing a file discards the
    blob. *)
Theorem one_audio_source v actions w0 :
  loaded w0 ->
  recordedBlob (perform_all v actions w0) = None \/
  audioFiles (perform_all v actions w0) = [].
Proof.
  intros H0.
  exact (proj2 (proj2 (reachable_consistent v actions w0 (loaded_consistent w0 H0)))).
Qed.

Lemma one_audio_source_witness :
  loaded idle /\
  (recordedBlob (perform_all static [StartClick microphone; StopClick; AudioChange [wav]] idle)
   = None \/
   audioFiles (perform_all static [StartClick microphone; StopClick; AudioChange [wav]] idle)
   = []).
Proof.
  assert (H : loaded idle) by (repeat split).
  split; [exact H|].
  exact (one_audio_source static [StartClick microphone; StopClick; AudioChange [wav]] idle H).
Defined.

(** X15. On a page reached from the script's load, the stored blob, when
    there is one, is a container the encoder produced: it is the output of
    [createWavBlob] on the concatenated blocks of some session. *)
Theorem recorded_blob_is_container v actions w0 b :
  loaded w0 ->
  recordedBlob (perform_all v actions w0) = Some b ->
  exists chunks sr, encoder v (concat chunks) sr = Some b.
Proof.
  intros H0 Hb.
  destruct (reachable_consistent v actions w0 (loaded_consistent w0 H0))
    as (_ & [Hn | [r Hr]] & _).
  - rewrite Hn in Hb. discriminate.
  - rewrite Hr in Hb. injection Hb as <-.
    exists (audioChunks r), (sampleRate r). apply encoder_spec.
Qed.

Lemma recorded_blob_is_container_witness :
  loaded idle /\
  recordedBlob (perform_all static [StartClick microphone; AudioProcess 0 [f32_one]; StopClick] idle)
  = Some (recorded {| stream := [0%nat]; audioChunks := [[f32_one]];
                      sampleRate := JS.lit 48000 |}) /\
  exists chunks sr,
    encoder static (concat chunks) sr
    = Some (recorded {| stream := [0%nat]; audioChunks := [[f32_one]];
                        sampleRate := JS.lit 48000 |}).
Proof.
  assert (H : loaded idle) by (repeat split).
  assert (Hb : recordedBlob
                 (perform_all static [StartClick microphone; AudioProcess 0 [f32_one]; StopClick]
                    idle)
               = Some (recorded {| stream := [0%nat]; audioChunks := [[f32_one]];
                                   sampleRate := JS.lit 48000 |})) by (vm_compute; reflexivity).
  split; [exact H|]. split; [exact Hb|].
  exact (recorded_blob_is_container static
           [StartClick microphone; AudioProcess 0 [f32_one]; StopClick] idle _ H Hb).
Defined.

(** X16. A submission of either kind, in either copy, on any page and
    against any service (one that rejects, answers with any status, or with
    any body, also a success body on which the result template of
    static/script.js throws a TypeError): the handler catches every error,
    so no exception escapes it; it changes nothing on the page but the log
    of effects; it sends at most one request; and its last effect hides the
    spinner. *)
Theorem submit_settles v s env w :
  exists c es,
    submit_handler v s env w = (c, append_log w (es ++ [hide_spinner])) /\
    (c = Normal tt \/ c = Return) /\
    (length (fetches es) <= 1)%nat.
Proof. apply submit_frame. Qed.

(** X17. When the inputs of a submission are present, the handler of either
    copy shows the spinner and sends exactly one request, the one made of
    the inputs on the page: for embed the audio (the stored recording as
    recorded.wav when the upload panel is hidden, else the first chosen
    file), the first chosen image and the two slider values; for extract
    the first chosen image. Whatever follows, no second request is sent. *)
Theorem submit_sends_request v s env w endpoint form :
  request s w = Some (endpoint, form) ->
  exists c es,
    submit_handler v s env w
    = (c, append_log w (show_spinner :: Fetch endpoint form :: es ++ [hide_spinner])) /\
    (c = Normal tt \/ c = Return) /\ fetches es = [].
Proof. apply submit_request. Qed.

Lemma submit_sends_request_witness :
  request Extract ready = Some ("/api/extract", [("image_file", FilePart png)]) /\
  exists c es,
    submit_handler revised Extract failing_service ready
    = (c, append_log ready
            (show_spinner :: Fetch "/api/extract" [("image_file", FilePart png)]
               :: es ++ [hide_spinner])) /\
    (c = Normal tt \/ c = Return) /\ fetches es = [].
Proof.
  split; [reflexivity|].
  exact (submit_sends_request revised Extract failing_service ready
           "/api/extract" [("image_file", FilePart png)] eq_refl).
Defined.

(** X18. When the request itself fails (fetch rejects, as on a network
    error), both copies alert the rejection's message after their prefix and
    hide the spinner; the body is never read and nothing is rendered or
    downloaded. *)
Theorem network_failure v s env w endpoint form message :
  request s w = Some (endpoint, form) ->
  fetch env endpoint form = Rejected message ->
  submit_handler v s env w
  = (Normal tt,
     append_log w
       [show_spinner; Fetch endpoint form;
        Alert ((match v with static => "❌ Error: " | revised => "Error: " end) +:+ message);
        hide_spinner]).
Proof.
  intros Hreq Hf. destruct w as [cr rc rb hidden afs ifs efs nf hl lg].
  destruct s; cbn [request] in Hreq; cbn [uploadAudioHidden recordedBlob audioFiles
    imageFiles extractImageFiles nFftValue hopLengthValue] in Hreq.
  - destruct hidden; [destruct rb | destruct afs]; try discriminate;
      (destruct ifs; [discriminate|]); cbn in Hreq; injection Hreq as <- <-;
      destruct v; cbn [submit_handler]; unfold Static.embed_click, Revised.embed_click;
      hrun; rewrite Hf; hrun; rewrite <- ?app_assoc; reflexivity.
  - destruct efs; [discriminate|]. cbn in Hreq; injection Hreq as <- <-.
    destruct v; cbn [submit_handler]; unfold Static.extract_click, Revised.extract_click;
      hrun; rewrite Hf; hrun; rewrite <- ?app_assoc; reflexivity.
Qed.

Lemma network_failure_witness :
  request Embed ready
  = Some ("/api/embed",
          [("audio_file", FilePart wav); ("image_file", FilePart png);
           ("n_fft", TextPart "2048"); ("hop_length", TextPart "512")]) /\
  fetch offline "/api/embed"
    [("audio_file", FilePart wav); ("image_file", FilePart png);
     ("n_fft", TextPart "2048"); ("hop_length", TextPart "512")]
  = Rejected "Failed to fetch" /\
  submit_handler static Embed offline ready
  = (Normal tt,
     append_log ready
       [show_spinner;
        Fetch "/api/embed"
          [("audio_file", FilePart wav); ("image_file", FilePart png);
           ("n_fft", TextPart "2048"); ("hop_length", TextPart "512")];
        Alert ("❌ Error: " +:+ "Failed to fetch");
        hide_spinner]).
Proof.
  split; [reflexivity|]. split; [reflexivity|].
  exact (network_failure static Embed offline ready _ _ "Failed to fetch" eq_refl eq_refl).
Defined.

(** X19. In the revised script, a success answer is downloaded as it came:
    the body is read as a blob, an object URL is made of that blob, and the
    same blob is saved under the fixed name embedded.png (embed) or
    extracted.wav (extract); the result panel is shown, nothing is alerted,
    and the spinner is hidden last. *)
Theorem revised_success s env w endpoint form r :
  request s w = Some (endpoint, form) ->
  fetch env endpoint form = Resolved r -> ok r = true ->
  submit_handler revised s env w
  = (Normal tt,
     append_log w
       [show_spinner; Fetch endpoint form; ReadBody AsBlob; CreateObjectURL (blob r);
        Download (match s with Embed => "embedded.png" | Extract => "extracted.wav" end)
          (blob r);
        Dom (match s with Embed => "embedResult" | Extract => "extractResult" end)
          "innerHTML" (match s with Embed => "✅ Embedded!" | Extract => "✅ Extracted!" end);
        Dom (match s with Embed => "embedResult" | Extract => "extractResult" end)
          "classList.remove" "hidden";
        hide_spinner]).
Proof.
  intros Hreq Hf Hok. destruct w as [cr rc rb hidden afs ifs efs nf hl lg].
  destruct s; cbn [submit_handler request] in *;
    unfold Revised.embed_click, Revised.extract_click; cbn in Hreq.
  - destruct hidden; [destruct rb | destruct afs]; try discriminate;
      (destruct ifs; [discriminate|]); cbn in Hreq; injection Hreq as <- <-;
      hrun; rewrite Hf; hrun; rewrite Hok; hrun; rewrite <- ?app_assoc; reflexivity.
  - destruct efs; [discriminate|]. cbn in Hreq; injection Hreq as <- <-.
    hrun; rewrite Hf; hrun; rewrite Hok; hrun; rewrite <- ?app_assoc; reflexivity.
Qed.

Lemma revised_success_witness :
  request Extract ready = Some ("/api/extract", [("image_file", FilePart png)]) /\
  fetch serving "/api/extract" [("image_file", FilePart png)] = Resolved served /\
  ok served = true /\
  submit_handler revised Extract serving ready
  = (Normal tt,
     append_log ready
       [show_spinner; Fetch "/api/extract" [("image_file", FilePart png)];
        ReadBody AsBlob; CreateObjectURL (blob served);
        Download "extracted.wav" (blob served);
        Dom "extractResult" "innerHTML" "✅ Extracted!";
        Dom "extractResult" "classList.remove" "hidden";
        hide_spinner]).
Proof.
  split; [reflexivity|]. split; [reflexivity|]. split; [reflexivity|].
  exact (revised_success Extract serving ready _ _ served eq_refl eq_refl eq_refl).
Defined.

(** X20. In static/script.js, when the service answers a failure with a
    JSON object whose [detail] is truthy, the alert shows [String(detail)]:
    a string detail is shown as it is, a detail that is a list of error
    objects (a validation error) is shown as [object Object], and a detail
    that has no string form (an object with an own [toString] property)
    makes the [Error] constructor throw, so that the alert shows the
    engine's TypeError text instead. *)
Theorem static_failure_detail s env w endpoint form r fields detail :
  request s w = Some (endpoint, form) ->
  fetch env endpoint form = Resolved r -> ok r = false ->
  json r = inr (JObj fields) ->
  Static.field "detail" fields = Some detail -> Static.truthy detail = true ->
  submit_handler static s env w
  = (Normal tt,
     append_log w
       [show_spinner; Fetch endpoint form; ReadBody AsJson;
        Alert ("❌ Error: " +:+
               match Static.ToString detail with
               | Some message => message
               | None => primitiveMessage env
               end);
        hide_spinner]).
Proof.
  intros Hreq Hf Hok Hj Hd Ht. destruct w as [cr rc rb hidden afs ifs efs nf hl lg].
  destruct s; cbn [submit_handler request] in *;
    unfold Static.embed_click, Static.extract_click, Static.detail_or; cbn in Hreq.
  - destruct hidden; [destruct rb | destruct afs]; try discriminate;
      (destruct ifs; [discriminate|]); cbn in Hreq; injection Hreq as <- <-;
      hrun; rewrite Hf; hrun; rewrite Hj; hrun; rewrite Hok; hrun;
      rewrite Hd; hrun; rewrite Ht; hrun;
      destruct (Static.ToString detail); hrun; rewrite <- ?app_assoc; reflexivity.
  - destruct efs; [discriminate|]. cbn in Hreq; injection Hreq as <- <-.
    hrun; rewrite Hf; hrun; rewrite Hj; hrun; rewrite Hok; hrun;
      rewrite Hd; hrun; rewrite Ht; hrun;
      destruct (Static.ToString detail); hrun; rewrite <- ?app_assoc; reflexivity.
Qed.

Lemma static_failure_detail_witness :
  request Extract ready = Some ("/api/extract", [("image_file", FilePart png)]) /\
  fetch validating "/api/extract" [("image_file", FilePart png)] = Resolved unprocessable /\
  ok unprocessable = false /\
  json unprocessable = inr (JObj [("detail", JArr [JObj [("msg", JStr "field required")]])]) /\
  Static.field "detail" [("detail", JArr [JObj [("msg", JStr "field required")]])]
  = Some (JArr [JObj [("msg", JStr "field required")]]) /\
  Static.truthy (JArr [JObj [("msg", JStr "field required")]]) = true /\
  submit_handler static Extract validating ready
  = (Normal tt,
     append_log ready
       [show_spinner; Fetch "/api/extract" [("image_file", FilePart png)]; ReadBody AsJson;
        Alert ("❌ Error: " +:+
               match Static.ToString (JArr [JObj [("msg", JStr "field required")]]) with
               | Some message => message
               | None => primitiveMessage validating
               end);
        hide_spinner]).
Proof.
  repeat (split; [reflexivity|]).
  exact (static_failure_detail Extract validating ready _ _ unprocessable _ _
           eq_refl eq_refl eq_refl eq_refl eq_refl eq_refl).
Defined.

(** X21. What was recorded is what is uploaded. After a session (a granted
    start, callbacks of any nodes, a stop), a click on an input-type button
    other than "upload" and the choice of an image, the embed handler of
    either copy sends as its last request the container of the blocks that
    the node of that start delivered, as the file recorded.wav of type
    audio/wav, with the first chosen image and the slider values of the
    page. *)
Theorem recording_is_uploaded v dev tracks sr calls type image images env w :
  getUserMedia dev = inr tracks -> newAudioContext dev = inr sr ->
  type <> "upload" ->
  let recorded_blocks := blocks_of (nodes (log w)) calls in
  last (fetches (log (perform_all v
          (StartClick dev :: callbacks calls ++
           [StopClick; InputTypeClick type; ImageChange (image :: images); Submit Embed env])
          w)))
  = Some ("/api/embed",
          [("audio_file",
            FilePart {| file_name := "recorded.wav"; file_type := "audio/wav";
                        file_bytes := wav_header (length (concat recorded_blocks)) sr
                                      ++ wav_data (concat recorded_blocks) |});
           ("image_file", FilePart image);
           ("n_fft", TextPart (nFftValue w));
           ("hop_length", TextPart (hopLengthValue w))]).
Proof.
  intros Hm Hc Ht blocks. subst blocks.
  change (perform_all v (?a :: ?l) ?w0) with (perform_all v l (run (perform v a) w0)).
  cbn [perform]. unfold run. destruct (start_ok v dev tracks sr w Hm Hc) as (es & Hes & ->).
  cbn [snd]. rewrite perform_all_app.
  rewrite (audio_process_blocks v (nodes (log w)))
    by (rewrite nodes_app, Hes; lia).
  cbn [app].
  unfold perform_all. cbn [foldl perform]. unfold run at 4.
  match goal with
  | |- context [stop_handler v ?w0] =>
      destruct (stop_ok v w0 _ eq_refl eq_refl) as [es' ->]
  end.
  cbn [snd]. unfold input_type_click, image_change. hstep.
  apply String.eqb_neq in Ht. rewrite Ht. hstep.
  match goal with
  | |- context [submit_handler v Embed env ?w0] =>
      destruct (submit_request v Embed env w0 _ _ eq_refl) as (c & es'' & -> & _ & Hes')
  end.
  cbn [snd log append_log recordedBlob imageFiles nFftValue hopLengthValue blob_bytes
       recorded audioChunks sampleRate].
  rewrite fetches_app, fetches_request, Hes'. apply last_snoc.
Qed.

Lemma recording_is_uploaded_witness :
  getUserMedia microphone = inr [0%nat] /\ newAudioContext microphone = inr (JS.lit 48000) /\
  "record"%string <> "upload"%string /\
  let recorded_blocks := blocks_of (nodes (log restarted)) interleaved in
  last (fetches (log (perform_all revised
          (StartClick microphone :: callbacks interleaved ++
           [StopClick; InputTypeClick "record"; ImageChange [png]; Submit Embed failing_service])
          restarted)))
  = Some ("/api/embed",
          [("audio_file",
            FilePart {| file_name := "recorded.wav"; file_type := "audio/wav";
                        file_bytes := wav_header (length (concat recorded_blocks)) (JS.lit 48000)
                                      ++ wav_data (concat recorded_blocks) |});
           ("image_file", FilePart png);
           ("n_fft", TextPart (nFftValue restarted));
           ("hop_length", TextPart (hopLengthValue restarted))]).
Proof.
  assert (Ht : "record"%string <> "upload"%string) by discriminate.
  split; [reflexivity|]. split; [reflexivity|]. split; [exact Ht|].
  exact (recording_is_uploaded revised microphone [0%nat] (JS.lit 48000) interleaved
           "record" png [] failing_service restarted eq_refl eq_refl Ht).
Defined.

End Page.
